(** * ColoTensor: lazy storage, 1-D shard / gather, operator interception

    A shallow embedding of [colossalai/tensor/colo_tensor.py].

    Python objects are mutable; a method of [ColoTensor] is embedded as a
    state transformer on the record of its attributes that also says
    whether the call returned or raised, so that the attributes left
    behind by a failing call can be inspected.  Functions that touch
    several objects at once ([__torch_function__], [__add__], ...) run on
    a store of objects addressed by location.

    Native tensors are values: a shape and the elements in row-major
    order, together with the flags that [init_from_torch_tensor] reads,
    the strides, and whether the tensor is a leaf of the autograd
    graph. *)

From Stdlib Require Import ZArith Lia.
From stdpp Require Import base decidable option list strings gmap.

Local Open Scope nat_scope.

(** ** Exceptions and results *)

Inductive Error : Type :=
| AssertionError (msg : string)
| NotImplementedError
| TypeError (msg : string)
| AttributeError
| IndexError
| RuntimeError
| UnboundLocalError
| ZeroDivisionError
| NotDivisible (numerator denominator : nat).

Inductive Res (A : Type) : Type :=
| Ok (a : A)
| Raise (e : Error).

Arguments Ok {A} a.
Arguments Raise {A} e.

Definition is_ok {A} (r : Res A) : bool :=
  match r with Ok _ => true | Raise _ => false end.

(** ** Native tensors

    torch is an external library.  Its tensors are taken as values, and
    [narrow] and [cat] have their documented meaning on the row-major
    elements: along dimension [d] a buffer is a sequence of
    [product (take d size)] blocks of [extent * product (drop (S d) size)]
    elements each.  Beside the elements a tensor carries what the
    operations of this file read or decide on: its strides, and whether
    it is a leaf of the autograd graph (gradient mode is taken to be
    enabled, as it is by default). *)

Inductive DType : Type :=
| float16 | bfloat16 | float32 | float64
| complex64 | complex128
| uint8 | int8 | int16 | int32 | int64
| bool_.

(** The dtypes whose tensors can require gradients: floating point and
    complex. *)
Definition differentiable (d : DType) : bool :=
  match d with
  | float16 | bfloat16 | float32 | float64 | complex64 | complex128 => true
  | _ => false
  end.

Definition Device : Type := nat.

Record Tensor : Type := mkTensor {
  t_size : list nat;          (* tensor.size() *)
  t_data : list Z;            (* the elements, row-major *)
  t_dtype : DType;            (* tensor.dtype *)
  t_device : Device;          (* tensor.device *)
  t_pinned : bool;            (* tensor.is_pinned() *)
  t_requires_grad : bool;     (* tensor.requires_grad *)
  t_stride : list nat;        (* tensor.stride() *)
  t_is_leaf : bool            (* tensor.is_leaf *)
}.

(** The product of the extents of a shape, which is [tensor.numel()]. *)
Definition product (s : list nat) : nat := foldr Nat.mul 1 s.

Definition numel (x : Tensor) : nat := product (t_size x).

(** The strides torch gives to a freshly allocated tensor: row-major,
    an extent of zero counting as one. *)
Fixpoint contiguous_strides (size : list nat) : list nat :=
  match size with
  | [] => []
  | _ :: rest => foldr (λ n acc, Nat.max n 1 * acc) 1 rest :: contiguous_strides rest
  end.

(** The scan of [tensor.is_contiguous()], from the last dimension to the
    first: the stride that the next dimension of extent other than one
    must have, or [None] once a stride differs. *)
Definition stride_scan (size stride : list nat) : option nat :=
  foldr (λ '(n, st) acc,
           match acc with
           | Some z => if n =? 1 then Some z else if st =? z then Some (z * n) else None
           | None => None
           end)
        (Some 1) (zip size stride).

(** [tensor.is_contiguous()]; a tensor without elements is contiguous. *)
Definition is_contiguous (x : Tensor) : bool :=
  (numel x =? 0) || bool_decide (is_Some (stride_scan (t_size x) (t_stride x))).

(** A tensor as a factory function of torch returns it: contiguous, and a
    leaf. *)
Definition dense (size : list nat) (data : list Z) (dtype : DType) (device : Device)
    (pinned requires_grad : bool) : Tensor :=
  mkTensor size data dtype device pinned requires_grad (contiguous_strides size) true.

(** Python's index normalisation for a sequence of length [n]:
    a negative index counts from the end. *)
Definition norm_dim (dim : Z) (n : nat) : option nat :=
  let d := if (dim <? 0)%Z then (dim + Z.of_nat n)%Z else dim in
  if ((0 <=? d) && (d <? Z.of_nat n))%Z then Some (Z.to_nat d) else None.

(** [t[dim]] on a tuple of ints. *)
Definition tuple_getitem (t : list nat) (dim : Z) : Res nat :=
  match norm_dim dim (length t) with
  | Some d => match t !! d with Some e => Ok e | None => Raise IndexError end
  | None => Raise IndexError
  end.

(** Rows [off, off+len) of each of the [k] leading blocks of [blk]
    elements. *)
Fixpoint narrow_rows (k blk off len : nat) (l : list Z) : list Z :=
  match k with
  | 0 => []
  | S k' => take len (drop off (take blk l)) ++ narrow_rows k' blk off len (drop blk l)
  end.

(** [tensor.narrow(dim, start, length)] for [start] and [length] that are
    not negative.  torch refuses a tensor without dimensions with a
    RuntimeError, a dimension out of range and a [start] beyond the
    extent with an IndexError, and a slice that ends beyond the extent
    with a RuntimeError.  The result is a view: it keeps the strides, and
    it is a leaf exactly when the tensor does not require gradients. *)
Definition narrow (x : Tensor) (dim : Z) (start len : nat) : Res Tensor :=
  match norm_dim dim (length (t_size x)) with
  | None => if length (t_size x) =? 0 then Raise RuntimeError else Raise IndexError
  | Some d =>
      let extent := default 0 (t_size x !! d) in
      if bool_decide (extent < start) then Raise IndexError
      else if bool_decide (start + len ≤ extent) then
        let inner := product (drop (S d) (t_size x)) in
        Ok {| t_size := <[d := len]> (t_size x);
              t_data := narrow_rows (product (take d (t_size x)))
                          (extent * inner) (start * inner) (len * inner) (t_data x);
              t_dtype := t_dtype x;
              t_device := t_device x;
              t_pinned := t_pinned x;
              t_requires_grad := t_requires_grad x;
              t_stride := t_stride x;
              t_is_leaf := negb (t_requires_grad x) |}
      else Raise RuntimeError
  end.

(** [tensor.detach()]: the same values and strides, cut off from the
    autograd graph. *)
Definition detach (x : Tensor) : Tensor :=
  {| t_size := t_size x; t_data := t_data x; t_dtype := t_dtype x;
     t_device := t_device x; t_pinned := t_pinned x; t_requires_grad := false;
     t_stride := t_stride x; t_is_leaf := true |}.

(** [tensor.contiguous()]: the tensor itself when it is contiguous, and
    otherwise a copy with row-major strides, in memory of its own, which
    is the result of an operation on the tensor. *)
Definition contiguous (x : Tensor) : Tensor :=
  if is_contiguous x then x
  else {| t_size := t_size x; t_data := t_data x; t_dtype := t_dtype x;
          t_device := t_device x; t_pinned := false;
          t_requires_grad := t_requires_grad x;
          t_stride := contiguous_strides (t_size x);
          t_is_leaf := negb (t_requires_grad x) |}.

(** [tensor.requires_grad = b].  torch lets the flag of a leaf be set
    only, and lets it be set to [True] only on a tensor of a floating
    point or complex dtype; it raises a RuntimeError otherwise. *)
Definition set_requires_grad (x : Tensor) (b : bool) : Res Tensor :=
  if negb (t_is_leaf x) then Raise RuntimeError
  else if b && negb (differentiable (t_dtype x)) then Raise RuntimeError
  else Ok {| t_size := t_size x; t_data := t_data x; t_dtype := t_dtype x;
             t_device := t_device x; t_pinned := t_pinned x; t_requires_grad := b;
             t_stride := t_stride x; t_is_leaf := true |}.

(** Interleave the blocks of several buffers: block [i] of the result is
    block [i] of every part, in the order of the parts.  A part is the
    length of one of its blocks and what is left of its buffer. *)
Fixpoint cat_rows (k : nat) (parts : list (nat * list Z)) : list Z :=
  match k with
  | 0 => []
  | S k' =>
      concat (map (λ p, take p.1 p.2) parts)
        ++ cat_rows k' (map (λ p, (p.1, drop p.1 p.2)) parts)
  end.

(** [torch.cat(xs, dim)]: concatenation along [dim] of tensors that agree
    on every other extent, into a new contiguous tensor. *)
Definition cat (xs : list Tensor) (dim : Z) : Res Tensor :=
  match xs with
  | [] => Raise RuntimeError
  | x0 :: _ =>
      match norm_dim dim (length (t_size x0)) with
      | None => Raise IndexError
      | Some d =>
          if forallb (λ x, bool_decide (<[d := 0]> (t_size x) = <[d := 0]> (t_size x0))) xs
          then
            let inner := product (drop (S d) (t_size x0)) in
            let ext x := default 0 (t_size x !! d) in
            let size := <[d := sum_list (map ext xs)]> (t_size x0) in
            Ok {| t_size := size;
                  t_data := cat_rows (product (take d (t_size x0)))
                              (map (λ x, (ext x * inner, t_data x)) xs);
                  t_dtype := t_dtype x0;
                  t_device := t_device x0;
                  t_pinned := false;
                  t_requires_grad := existsb t_requires_grad xs;
                  t_stride := contiguous_strides size;
                  t_is_leaf := negb (existsb t_requires_grad xs) |}
          else Raise RuntimeError
      end
  end.

(** ** Layout descriptors *)

Inductive TensorType : Type :=
| MODEL
| NONMODEL.

Inductive ShardPattern : Type :=
| NA
| Row
| Col.

(** The patterns the source names, and the members of the enumeration it
    does not name. *)
Inductive ComputePattern : Type :=
| TP1DRow_Linear
| TP1DCol_Linear
| TP1DRow_Embedding
| TP1DCol_Embedding
| DP
| OtherPattern (tag : nat).

Definition ParallelMode : Type := nat.

Global Instance TensorType_eq_dec : EqDecision TensorType.
Proof. solve_decision. Defined.
Global Instance ShardPattern_eq_dec : EqDecision ShardPattern.
Proof. solve_decision. Defined.
Global Instance ComputePattern_eq_dec : EqDecision ComputePattern.
Proof. solve_decision. Defined.

(** Modelled from the spec: the action descriptor, "with fields
    compute_pattern and parallel_mode"; its class is not in this file. *)
Record ParallelAction : Type := mkAction {
  compute_pattern : ComputePattern;
  parallel_mode : ParallelMode
}.

(** Modelled from the spec: the layout spec "may declare zero or more
    partition actions keyed by compute pattern"; [num_action] is the
    "count of declared partition actions" and "default construction
    yields zero actions".  The class [TensorSpec] is not in this file. *)
Record TensorSpec : Type := mkSpec {
  parallel_action_list : list ParallelAction
}.

Definition num_action (s : TensorSpec) : nat := length (parallel_action_list s).

Definition compute_patterns (s : TensorSpec) : list ComputePattern :=
  map compute_pattern (parallel_action_list s).

(** Modelled from the spec: the action declared for a compute pattern.
    A pattern the spec does not declare has no action ([None]); the
    source then reads an attribute of the missing action, which raises. *)
Definition get_action_by_compute_pattern (s : TensorSpec) (p : ComputePattern)
  : option ParallelAction :=
  find (λ a, bool_decide (compute_pattern a = p)) (parallel_action_list s).

(** [TensorSpec()] *)
Definition default_spec : TensorSpec := mkSpec [].

(** Modelled from the spec: the "integer exact-division helper: divides
    total by parts, fails if not evenly divisible"; a zero divisor makes
    Python's remainder raise. *)
Definition divide (numerator denominator : nat) : Res nat :=
  if denominator =? 0 then Raise ZeroDivisionError
  else if numerator mod denominator =? 0 then Ok (numerator / denominator)
  else Raise (NotDivisible numerator denominator).

(** The process-group registry [gpc] and the gather collective of
    [parallel_1d._utils], seen from one rank: what the collective returns
    in the forward pass depends on what the other ranks hold, and is a
    parameter. *)
Record Env : Type := mkEnv {
  get_world_size : ParallelMode → nat;
  get_local_rank : ParallelMode → nat;
  gather_forward_split_backward : Tensor → ParallelMode → Z → Tensor
}.

(** ** The wrapped tensor *)

Record ColoTensor : Type := mkColo {
  _size : list nat;
  _dtype : option DType;
  _requires_grad : bool;
  _pin_memory : bool;
  _device : option Device;
  _torch_tensor : Tensor;
  _shard_spec : option TensorSpec;
  _shard_pattern : ShardPattern;
  _type : TensorType
}.

Definition with_size (s : list nat) (c : ColoTensor) : ColoTensor :=
  mkColo s (_dtype c) (_requires_grad c) (_pin_memory c) (_device c)
         (_torch_tensor c) (_shard_spec c) (_shard_pattern c) (_type c).

Definition with_torch_tensor (x : Tensor) (c : ColoTensor) : ColoTensor :=
  mkColo (_size c) (_dtype c) (_requires_grad c) (_pin_memory c) (_device c)
         x (_shard_spec c) (_shard_pattern c) (_type c).

Definition with_shard_spec (s : option TensorSpec) (c : ColoTensor) : ColoTensor :=
  mkColo (_size c) (_dtype c) (_requires_grad c) (_pin_memory c) (_device c)
         (_torch_tensor c) s (_shard_pattern c) (_type c).

Definition with_shard_pattern (p : ShardPattern) (c : ColoTensor) : ColoTensor :=
  mkColo (_size c) (_dtype c) (_requires_grad c) (_pin_memory c) (_device c)
         (_torch_tensor c) (_shard_spec c) p (_type c).

(** A computation over a state [S] that returns or raises; the state a
    failing computation leaves behind is kept. *)
Definition Run (S A : Type) : Type := S → Res A * S.

Definition ret {S A} (a : A) : Run S A := λ s, (Ok a, s).

Definition bind {S A B} (m : Run S A) (k : A → Run S B) : Run S B :=
  λ s,
    match m s with
    | (Ok a, s') => k a s'
    | (Raise e, s') => (Raise e, s')
    end.

Definition raise {S A} (e : Error) : Run S A := λ s, (Raise e, s).

Definition attr {S A} (f : S → A) : Run S A := λ s, (Ok (f s), s).

Definition assign {S} (f : S → S) : Run S unit := λ s, (Ok (), f s).

Definition py_assert {S} (b : bool) (msg : string) : Run S unit :=
  λ s, if b then (Ok (), s) else (Raise (AssertionError msg), s).

Definition lift_res {S A} (r : Res A) : Run S A := λ s, (r, s).

(** [obj.field] where [obj] may be [None]. *)
Definition getattr_of {S A B} (o : option A) (f : A → B) : Run S B :=
  λ s,
    match o with
    | Some a => (Ok (f a), s)
    | None => (Raise AttributeError, s)
    end.

(** A method call: the attributes of [self] go in, the outcome and the
    attributes the call leaves behind come out. *)
Abbreviation Meth := (Run ColoTensor).

Declare Scope meth_scope.
Delimit Scope meth_scope with meth.
Notation "'let*' x ':=' m 'in' k" := (bind m (λ x, k))
  (at level 10, x name, m at level 100, k at level 200) : meth_scope.
Notation "m ;; k" := (bind m (λ _, k))
  (at level 100, k at level 200, right associativity) : meth_scope.
Local Open Scope meth_scope.

Definition is_gathered (self : ColoTensor) : bool :=
  bool_decide (_shard_pattern self = NA).

Definition has_spec (self : ColoTensor) : bool :=
  match _shard_spec self with
  | Some s => bool_decide (0 < num_action s)
  | None => false
  end.

Definition is_activation (self : ColoTensor) : bool :=
  bool_decide (_type self = NONMODEL).

Definition set_shard_pattern (shard_pattern : ShardPattern) : Meth unit :=
  assign (with_shard_pattern shard_pattern).

Definition gather (env : Env) : Meth unit :=
  let* a := attr is_activation in
  py_assert a "Currently we only support gather Activation ColoTensor." ;;
  let* g := attr is_gathered in
  py_assert (negb g) "Only sharded ColoTensor can be gathered." ;;
  let* spec := attr _shard_spec in
  let* parallel_action := getattr_of spec (λ s, get_action_by_compute_pattern s DP) in
  let* pat := attr _shard_pattern in
  let* dim := match pat with
        | Row => ret 0%Z
        | Col => ret (-1)%Z
        | NA => raise UnboundLocalError
        end in
  let* mode := getattr_of parallel_action parallel_mode in
  let* x := attr _torch_tensor in
  assign (with_torch_tensor (gather_forward_split_backward env x mode dim)) ;;
  assign (with_shard_pattern NA) ;;
  let* x' := attr _torch_tensor in
  assign (with_size (t_size x')).

Definition _shard_1d (env : Env) (parallel_action : ParallelAction) (dim : Z) : Meth unit :=
  let num_partition := get_world_size env (parallel_mode parallel_action) in
  let local_rank := get_local_rank env (parallel_mode parallel_action) in
  let* size := attr _size in
  let* extent := lift_res (tuple_getitem size dim) in
  let* chunk_size := lift_res (divide extent num_partition) in
  let* x := attr _torch_tensor in
  let* local := lift_res (narrow x dim (local_rank * chunk_size) chunk_size) in
  assign (with_torch_tensor (contiguous (detach local))) ;;
  let* rg := attr _requires_grad in
  let* x' := attr _torch_tensor in
  let* flagged := lift_res (set_requires_grad x' rg) in
  assign (with_torch_tensor flagged) ;;
  let* x'' := attr _torch_tensor in
  assign (with_size (t_size x'')).

Definition shard (env : Env) : Meth unit :=
  let* spec0 := attr _shard_spec in
  py_assert (bool_decide (spec0 ≠ None))
    "You should call set_spec() before _shard() ColoTensor." ;;
  let* pat := attr _shard_pattern in
  (if bool_decide (pat ≠ NA) then gather env else ret ()) ;;
  let* spec := attr _shard_spec in
  let* n := getattr_of spec num_action in
  if bool_decide (n = 1) then
    let* patterns := getattr_of spec compute_patterns in
    let* p0 := match patterns !! 0 with
         | Some p => ret p
         | None => raise IndexError
         end in
    let* parallel_action := getattr_of spec (λ s, get_action_by_compute_pattern s p0) in
    match parallel_action with
    | None => raise AttributeError    (* None.compute_pattern *)
    | Some action =>
        if bool_decide (compute_pattern action ∈ [TP1DRow_Linear; TP1DCol_Embedding]) then
          _shard_1d env action (-1) ;;
          assign (with_shard_pattern Col)
        else if bool_decide (compute_pattern action ∈ [TP1DCol_Linear; TP1DRow_Embedding]) then
          _shard_1d env action 0 ;;
          assign (with_shard_pattern Row)
        else raise NotImplementedError
    end
  else ret ().

Definition set_spec (env : Env) (spec : option TensorSpec) (do_shard : bool) : Meth unit :=
  assign (with_shard_spec spec) ;;
  if do_shard then shard env else ret ().

(** ** Objects in a store, and the calls into torch *)

(** Python values, as far as this file tells them apart. *)
#[warnings="-register-all"]
Inductive PyVal : Type :=
| VNone
| VTensor (x : Tensor)        (* [type(v) is torch.Tensor] *)
| VSubTensor (x : Tensor)     (* an instance of a proper subclass of torch.Tensor *)
| VColo (loc : nat)           (* a ColoTensor object *)
| VTuple (vs : list PyVal)    (* [type(v) is tuple] *)
| VOther (cls : string) (tag : nat).
    (* numbers, strings, lists, named tuples, ...: an instance of the
       class named [cls] *)

Definition Func : Type := nat.
Abbreviation Kwargs := (list (string * PyVal)).

(** What the file asks of torch.  [empty] takes the number of buffers
    allocated so far: what an uninitialised buffer holds is up to the
    allocator. *)
Record Torch : Type := mkTorch {
  empty : list nat → option DType → bool → bool → option Device → nat → Res Tensor;
  call : Func → list PyVal → Kwargs → Res PyVal;    (* [func( *args, **kwargs)] *)
  getitem : Tensor → PyVal → Res Tensor;            (* [x[key]] *)
  add : Tensor → Tensor → Res Tensor;               (* [x + y] *)
  truediv : Tensor → PyVal → Res Tensor             (* [x / o] *)
}.

(** The ColoTensor objects alive, by location, and the number of buffers
    [torch.empty] has handed out. *)
Record Store : Type := mkStore {
  objs : list ColoTensor;
  allocs : nat
}.

Abbreviation Prog := (Run Store).

(** [torch.empty(size, dtype=.., pin_memory=.., requires_grad=.., device=..)] *)
Definition torch_empty (T : Torch) (size : list nat) (dtype : option DType)
    (pin_memory requires_grad : bool) (device : option Device) : Prog Tensor :=
  λ σ,
    match empty T size dtype pin_memory requires_grad device (allocs σ) with
    | Ok x => (Ok x, mkStore (objs σ) (S (allocs σ)))
    | Raise e => (Raise e, σ)
    end.

(** The object behind a reference; a reference always has one. *)
Definition deref (loc : nat) : Prog ColoTensor :=
  λ σ,
    match objs σ !! loc with
    | Some self => (Ok self, σ)
    | None => (Raise RuntimeError, σ)
    end.

Definition update (loc : nat) (f : ColoTensor → ColoTensor) : Prog unit :=
  λ σ, (Ok (), mkStore (alter f loc (objs σ)) (allocs σ)).

Definition new_object (c : ColoTensor) : Prog nat :=
  λ σ, (Ok (length (objs σ)), mkStore (objs σ ++ [c]) (allocs σ)).

Definition __init__ (size : list nat) (dtype : option DType)
    (requires_grad pin_memory : bool) (device : option Device)
    (torch_tensor : Tensor) (shard_spec : option TensorSpec)
    (is_model_data : bool) : ColoTensor :=
  {| _size := size;
     _dtype := dtype;
     _requires_grad := requires_grad;
     _pin_memory := pin_memory;
     _device := device;
     _torch_tensor := torch_tensor;
     _shard_spec := shard_spec;
     _shard_pattern := NA;
     _type := if is_model_data then MODEL else NONMODEL |}.

Definition init_from_torch_tensor (T : Torch) (tensor : Tensor)
    (save_payload is_model_data : bool) : Prog nat :=
  let* payload := if save_payload then ret tensor
                  else torch_empty T [0] None false false None in
  new_object (__init__ (t_size tensor) (Some (t_dtype tensor))
                (t_requires_grad tensor) (t_pinned tensor)
                (Some (t_device tensor)) payload (Some default_spec)
                is_model_data).

Definition del_torch_tensor (T : Torch) (self : nat) (save_shape : bool) : Prog unit :=
  (if negb save_shape then update self (with_size [0]) else ret ()) ;;
  let* c := deref self in
  let* x := torch_empty T [0] (_dtype c) false false (_device c) in
  update self (with_torch_tensor x).

Definition torch_tensor (T : Torch) (self : nat) : Prog Tensor :=
  let* c := deref self in
  (if numel (_torch_tensor c) =? 0 then
     let* x := torch_empty T (_size c) (_dtype c) (_pin_memory c)
                 (_requires_grad c) (_device c) in
     update self (with_torch_tensor x)
   else ret ()) ;;
  let* c' := deref self in
  ret (_torch_tensor c').

Definition __getitem__ (T : Torch) (self : nat) (key : PyVal) : Prog nat :=
  let* x := torch_tensor T self in
  let* y := lift_res (getitem T x key) in
  init_from_torch_tensor T y true false.

(** [f'{type(o)} is not supported in ColoTensor __add__'], for an
    operand of the class named [cls]. *)
Definition unsupported_operand (cls : string) : string :=
  "<class '" +:+ cls +:+ "'> is not supported in ColoTensor __add__".

Definition __add__ (T : Torch) (self : nat) (o : PyVal) : Prog nat :=
  match o with
  | VColo o' =>
      let* x := torch_tensor T self in
      let* y := torch_tensor T o' in
      let* z := lift_res (add T x y) in
      init_from_torch_tensor T z true false
  | VTensor y | VSubTensor y =>
      let* x := torch_tensor T self in
      let* z := lift_res (add T x y) in
      init_from_torch_tensor T z true false
  | VNone => raise (TypeError (unsupported_operand "NoneType"))
  | VTuple _ => raise (TypeError (unsupported_operand "tuple"))
  | VOther cls _ => raise (TypeError (unsupported_operand cls))
  end.

(** [self.torch_tensor() / o].  The operand is not unwrapped.  When it is
    a wrapped tensor, torch hands the division to
    [ColoTensor.__torch_function__]; division is taken to have no handler
    in the registry, so that the interceptor reads the storage of the
    operand, divides, and wraps the quotient in an object of its own.
    [init_from_torch_tensor] is then given that object: it makes a second
    object, which declares what the quotient has and keeps the first
    object as its storage.  The store holds native storages only, and
    gives the second object the quotient itself. *)
Definition __truediv__ (T : Torch) (self : nat) (o : PyVal) : Prog nat :=
  let* x := torch_tensor T self in
  match o with
  | VColo o' =>
      let* y := torch_tensor T o' in
      let* z := lift_res (truediv T x (VTensor y)) in
      init_from_torch_tensor T z true false ;;
      init_from_torch_tensor T z true false
  | _ =>
      let* z := lift_res (truediv T x o) in
      init_from_torch_tensor T z true false
  end.

(** [ColoTensor.init_from_torch_tensor(output) if type(output) is
    torch.Tensor else output] *)
Definition wrap_if_tensor (T : Torch) (output : PyVal) : Prog PyVal :=
  match output with
  | VTensor x =>
      let* c := init_from_torch_tensor T x true false in
      ret (VColo c)
  | _ => ret output
  end.

(** A list comprehension whose element expression has effects. *)
Fixpoint for_each {S A B} (f : A → Run S B) (l : list A) : Run S (list B) :=
  match l with
  | [] => ret []
  | a :: l' =>
      let* b := f a in
      let* bs := for_each f l' in
      ret (b :: bs)
  end.

Definition _filter_outputs_with_colo (T : Torch) (outputs : PyVal) : Prog PyVal :=
  match outputs with
  | VNone => ret VNone
  | VTuple vs =>
      let* vs' := for_each (wrap_if_tensor T) vs in
      ret (VTuple vs')
  | _ => wrap_if_tensor T outputs
  end.

(** [arg.torch_tensor() if isinstance(arg, ColoTensor) else arg] *)
Definition unwrap_if_colo (T : Torch) (arg : PyVal) : Prog PyVal :=
  match arg with
  | VColo c =>
      let* x := torch_tensor T c in
      ret (VTensor x)
  | _ => ret arg
  end.

(** [k: v.torch_tensor() if isinstance(v, ColoTensor) else v] *)
Definition unwrap_kw (T : Torch) (kv : string * PyVal) : Prog (string * PyVal) :=
  let* v := unwrap_if_colo T kv.2 in
  ret (kv.1, v).

Definition is_colo (v : PyVal) : bool :=
  match v with VColo _ => true | _ => false end.

(** A handler of the registry [_COLOSSAL_OPS], a dict keyed by the
    operation. *)
Abbreviation Handler :=
  (list nat → list PyVal → option Kwargs → PyVal → Prog PyVal).

Definition __torch_function__ (T : Torch) (_COLOSSAL_OPS : gmap nat Handler)
    (func : Func) (types : list nat) (args : list PyVal) (kwargs : option Kwargs)
  : Prog PyVal :=
  match _COLOSSAL_OPS !! (func : nat) with
  | Some handler =>
      if existsb is_colo args then handler types args kwargs VNone
      else
        match kwargs with
        | None => raise AttributeError      (* [None.values()] *)
        | Some kw =>
            if existsb is_colo (map snd kw) then handler types args kwargs VNone
            else ret VNone
        end
  | None =>
      let* args' := for_each (unwrap_if_colo T) args in
      let kw := default [] kwargs in
      let* kw' := for_each (unwrap_kw T) kw in
      let* outputs := lift_res (call T func args' kw') in
      _filter_outputs_with_colo T outputs
  end.

(** ** Shape queries

    numpy reduces in the type of the array it makes of the tuple: for an
    empty tuple that is float64, and the product is 1.0; for extents
    below 2^63 it is int64 (the default integer, taken to be of 64 bits),
    and the product wraps around; for extents below 2^64 it is uint64;
    beyond, the array holds Python integers and the product is exact. *)

Inductive NpNumber : Type :=
| np_float64 (whole : Z)
| np_int64 (z : Z)
| np_uint64 (z : Z)
| py_int (z : Z).

Definition wrap_int64 (z : Z) : Z := ((z + 2 ^ 63) mod 2 ^ 64 - 2 ^ 63)%Z.

Definition numpy_product (s : list nat) : NpNumber :=
  let p := Z.of_nat (product s) in
  match s with
  | [] => np_float64 1
  | _ =>
      if forallb (λ n, Z.of_nat n <? 2 ^ 63)%Z s then np_int64 (wrap_int64 p)
      else if forallb (λ n, Z.of_nat n <? 2 ^ 64)%Z s then np_uint64 (p mod 2 ^ 64)%Z
      else py_int p
  end.

(** [shape], [size], [dim] and [numel] read the logical size, never the
    storage.  The class defines [size] twice; the method, defined last,
    is the one in force. *)

Module Colo.

Definition shape (self : ColoTensor) : list nat := _size self.

(** [size(dim=None)]: the whole shape, or one extent of it. *)
Definition size (self : ColoTensor) (dim : option Z) : Res (list nat + nat) :=
  match dim with
  | None => Ok (inl (shape self))
  | Some d =>
      match tuple_getitem (_size self) d with
      | Ok e => Ok (inr e)
      | Raise e => Raise e
      end
  end.

Definition dim (self : ColoTensor) : nat := length (_size self).

(** [product(self._size)], with numpy's [product]. *)
Definition numel (self : ColoTensor) : NpNumber := numpy_product (_size self).

End Colo.

(** ** The attribute fallback *)

(** What [getattr(tensor, name)] finds on a native tensor: a callable (a
    method bound to that tensor, as a function of the arguments of the
    call), or any other value. *)
Inductive NativeAttr : Type :=
| Callable (func : list PyVal → Kwargs → Res PyVal)
| Plain (v : PyVal).

(** The closure [execute_func] that [replace_tensor_with_colo(func)]
    returns.  [**kwargs] is never [None]. *)
Definition execute_func (T : Torch) (func : list PyVal → Kwargs → Res PyVal)
    (args : list PyVal) (kwargs : Kwargs) : Prog PyVal :=
  let* args' := for_each (unwrap_if_colo T) args in
  let* kwargs' := for_each (unwrap_kw T) kwargs in
  let* outputs := lift_res (func args' kwargs') in
  _filter_outputs_with_colo T outputs.

Definition replace_tensor_with_colo (T : Torch)
    (func : list PyVal → Kwargs → Res PyVal) : list PyVal → Kwargs → Prog PyVal :=
  execute_func T func.

(** [__getattr__(name)], which Python calls for a name that the wrapped
    tensor does not define itself.  [getattr] is the attribute lookup of
    native tensors, [None] where [hasattr] is false.  The result is the
    wrapper of a callable, or the attribute as it is. *)
Definition __getattr__ (T : Torch) (getattr : Tensor → string → option NativeAttr)
    (self : nat) (name : string)
  : Prog ((list PyVal → Kwargs → Prog PyVal) + PyVal) :=
  let* c := deref self in
  match getattr (_torch_tensor c) name with
  | None =>
      raise (AssertionError
               ("torch.Tensor has not attribute named as " +:+ name +:+ ". So is ColoTensor"))
  | Some (Callable func) => ret (inl (replace_tensor_with_colo T func))
  | Some (Plain v) => ret (inr v)
  end.

(** ** Notions the statements are written in *)

(** The shard dimension and the pattern that the spec's dispatch table
    gives for a compute pattern: "{RowParallelLinear,
    ColumnParallelEmbedding} -> shard along the last dimension,
    transition to ColumnSharded; {ColumnParallelLinear,
    RowParallelEmbedding} -> shard along the first dimension, transition
    to RowSharded; any other pattern -> fatal not-implemented". *)
Definition dispatch_table (p : ComputePattern) : option (Z * ShardPattern) :=
  match p with
  | TP1DRow_Linear | TP1DCol_Embedding => Some ((-1)%Z, Col)
  | TP1DCol_Linear | TP1DRow_Embedding => Some (0%Z, Row)
  | DP | OtherPattern _ => None
  end.


(** The step of [shard] that comes before the dispatch: "if currently
    sharded, gather first". *)
Definition implicit_gather (env : Env) : Meth unit :=
  λ self, if is_gathered self then (Ok (), self) else gather env self.

(** The dimension [gather] hands to the collective. *)
Definition gather_dim (p : ShardPattern) : Z :=
  match p with Row => 0%Z | _ => (-1)%Z end.

(** The leaf [x] with its requires-grad flag set to [b]: what
    [x.requires_grad = b] leaves when it does not raise. *)
Definition with_requires_grad (b : bool) (x : Tensor) : Tensor :=
  {| t_size := t_size x; t_data := t_data x; t_dtype := t_dtype x;
     t_device := t_device x; t_pinned := t_pinned x; t_requires_grad := b;
     t_stride := t_stride x; t_is_leaf := true |}.

(** The flag [b] can be set on a tensor of dtype [d]. *)
Definition flag_allowed (b : bool) (d : DType) : Prop :=
  b = false ∨ differentiable d = true.

(** What rank [rank] keeps of the full tensor [x] when every rank cuts
    chunks of [chunk_size] along [dim], as [_shard_1d] stores it. *)
Definition local_shard (x : Tensor) (dim : Z) (chunk_size : nat) (rg : bool)
    (rank : nat) : Tensor :=
  match narrow x dim (rank * chunk_size) chunk_size with
  | Ok y =>
      match set_requires_grad (contiguous (detach y)) rg with
      | Ok z => z
      | Raise _ => x
      end
  | Raise _ => x
  end.

(** The object [init_from_torch_tensor(x)] makes. *)
Definition colo_of (x : Tensor) : ColoTensor :=
  __init__ (t_size x) (Some (t_dtype x)) (t_requires_grad x) (t_pinned x)
           (Some (t_device x)) x (Some default_spec) false.

(** A tensor that nothing has laid out: not sharded, and under the default
    layout spec, which declares no action. *)
Definition fresh_layout (c : ColoTensor) : Prop :=
  _shard_pattern c = NA ∧ _shard_spec c = Some default_spec
  ∧ has_spec c = false.

(** [w] is what re-wrapping makes of the single result [v], in the store
    [σ]: a native tensor is wrapped in a new object, anything else is
    returned as it is. *)
Definition rewrapped (σ : Store) (v w : PyVal) : Prop :=
  match v with
  | VTensor x => ∃ loc, w = VColo loc ∧ objs σ !! loc = Some (colo_of x)
  | _ => w = v
  end.

(** The rewrapping rule of the spec, for the result [outputs]: "None ->
    None"; a single result is wrapped if it is a native tensor; "a tuple
    of results -> element-wise ...; order preserved". *)
Definition rewrap_rule (σ : Store) (outputs v : PyVal) : Prop :=
  match outputs with
  | VNone => v = VNone
  | VTuple vs => ∃ ws, v = VTuple ws ∧ Forall2 (rewrapped σ) vs ws
  | _ => rewrapped σ outputs v
  end.

(** [w] is what unwrapping makes of the argument [v]: a wrapped tensor
    gives a native tensor, which is the storage its object holds in the
    store [σ] reached once all arguments are unwrapped (an empty buffer
    is allocated anew at each read); anything else is passed as it is. *)
Definition unwrapped (σ : Store) (v w : PyVal) : Prop :=
  match v with
  | VColo loc =>
      ∃ x c, w = VTensor x ∧ objs σ !! loc = Some c
             ∧ (numel x ≠ 0 → _torch_tensor c = x)
  | _ => w = v
  end.

Definition kw_unwrapped (σ : Store) (kv kv' : string * PyVal) : Prop :=
  kv'.1 = kv.1 ∧ unwrapped σ kv.2 kv'.2.

(** The argument is not a wrapped tensor that still awaits its buffer. *)
Definition materialised (σ : Store) (v : PyVal) : Prop :=
  match v with
  | VColo loc => ∃ c, objs σ !! loc = Some c ∧ numel (_torch_tensor c) ≠ 0
  | _ => True
  end.

(** The argument with a wrapped tensor replaced by its storage. *)
Definition native_of (σ : Store) (v : PyVal) : PyVal :=
  match v with
  | VColo loc =>
      match objs σ !! loc with
      | Some c => VTensor (_torch_tensor c)
      | None => v
      end
  | _ => v
  end.

(** Objects are neither made nor dropped, and a buffer that holds
    elements stays where it is. *)
Definition keeps_buffers (σ σ' : Store) : Prop :=
  length (objs σ') = length (objs σ)
  ∧ ∀ l c, objs σ !! l = Some c → numel (_torch_tensor c) ≠ 0 → objs σ' !! l = Some c.

(** The extents of a shape and their product are below 2^63: numpy's
    product of them is an int64 and does not wrap around. *)
Definition fits_int64 (s : list nat) : Prop :=
  Forall (λ n, (Z.of_nat n < 2 ^ 63)%Z) s ∧ (Z.of_nat (product s) < 2 ^ 63)%Z.

(** The attributes that [__init__] declares and that no later call is
    meant to touch: dtype, requires-grad flag, pinning, device, layout
    spec and category. *)
Definition same_declaration (t t' : ColoTensor) : Prop :=
  _dtype t' = _dtype t ∧ _requires_grad t' = _requires_grad t
  ∧ _pin_memory t' = _pin_memory t ∧ _device t' = _device t
  ∧ _shard_spec t' = _shard_spec t ∧ _type t' = _type t.

(** Every object of [σ] is still there in [σ'], with the attributes it
    had; only its storage may be another buffer. *)
Definition layout_kept (σ σ' : Store) : Prop :=
  ∀ l c, objs σ !! l = Some c → ∃ x, objs σ' !! l = Some (with_torch_tensor x c).

(** The outcome of a call that derives a new wrapped tensor: the objects
    that were there keep their layout; a call that returns has made one
    object, at a location no object had; a call that raises has made
    none. *)
Definition derives_one (σ : Store) (r : Res nat) (σ' : Store) : Prop :=
  layout_kept σ σ'
  ∧ match r with
    | Ok loc => loc = length (objs σ) ∧ length (objs σ') = S (length (objs σ))
    | Raise _ => length (objs σ') = length (objs σ)
    end.

Definition is_native (v : PyVal) : bool :=
  match v with VTensor _ => true | _ => false end.

(** No native tensor is left where re-wrapping looks: the value itself
    and, for a tuple, its elements. *)
Definition no_bare_tensor (v : PyVal) : bool :=
  match v with
  | VTensor _ => false
  | VTuple vs => forallb (λ w, negb (is_native w)) vs
  | _ => true
  end.

(** ** Running examples *)

(** A process group of [ws] ranks seen from rank [rank]: the collective
    concatenates, in rank order, what the ranks hold, [peers dim] being
    what the other ranks contribute along [dim]. *)
Definition spmd_env (ws rank : nat) (peers : Z → list Tensor) : Env :=
  mkEnv (λ _, ws) (λ _, rank)
        (λ x _ dim,
           match cat (<[rank := x]> (peers dim)) dim with
           | Ok y => y
           | Raise _ => x
           end).

(** The matrix [[1, 2, 3, 4], [5, 6, 7, 8]]. *)
Definition ex_full : Tensor :=
  dense [2; 4] [1; 2; 3; 4; 5; 6; 7; 8]%Z int64 0 false false.

(** What the two ranks keep of [ex_full]: rows along dimension 0, halves
    of rows along the last dimension. *)
Definition ex_peers (dim : Z) : list Tensor :=
  map (local_shard ex_full dim (if (dim =? 0)%Z then 1 else 2) false) (seq 0 2).

(** Two ranks, seen from rank 1. *)
Definition ex_env : Env := spmd_env 2 1 ex_peers.

Definition ex_matrix (spec : TensorSpec) (type : TensorType) : ColoTensor :=
  mkColo [2; 4] None false false None ex_full (Some spec) NA type.

Definition ex_colo (spec : list ParallelAction) (type : TensorType) : ColoTensor :=
  ex_matrix (mkSpec spec) type.

Definition ex_row_linear : TensorSpec := mkSpec [mkAction TP1DRow_Linear 1].

Definition ex_dp : TensorSpec := mkSpec [mkAction DP 1].

Definition ex_two_actions : list ParallelAction :=
  [mkAction TP1DRow_Linear 1; mkAction DP 0].

(** Three elements for two ranks. *)
Definition ex_odd : ColoTensor :=
  mkColo [3] None false false None
         (dense [3] [1; 2; 3]%Z int64 0 false false)
         (Some (mkSpec [mkAction TP1DCol_Linear 1])) NA NONMODEL.

(** A tensor of six elements cut in two by [shard]: the local half has an
    odd extent. *)
Definition ex_six (type : TensorType) : ColoTensor :=
  mkColo [6] None false false None
         (dense [6] [1; 2; 3; 4; 5; 6]%Z int64 0 false false)
         (Some (mkSpec [mkAction TP1DCol_Linear 1])) NA type.

Definition ex_half (type : TensorType) : ColoTensor := (shard ex_env (ex_six type)).2.

(** [ex_matrix] sharded by rows. *)
Definition ex_rows (type : TensorType) : ColoTensor :=
  (shard ex_env (ex_matrix (mkSpec [mkAction TP1DCol_Linear 1]) type)).2.

(** A torch whose buffers come zero-filled, whose only operation negates
    its single tensor argument, and whose addition is elementwise. *)
Definition ex_zeros (size : list nat) (dtype : option DType) (pin rg : bool)
    (device : option Device) (n : nat) : Res Tensor :=
  if rg && negb (differentiable (default float32 dtype)) then Raise RuntimeError
  else Ok (dense size (replicate (product size) 0%Z) (default float32 dtype)
                 (default 0 device) pin rg).

Definition ex_neg : Func := 0.

Definition ex_call (f : Func) (args : list PyVal) (kw : Kwargs) : Res PyVal :=
  match args with
  | [VTensor x] =>
      Ok (VTensor (mkTensor (t_size x) (map Z.opp (t_data x)) (t_dtype x)
                            (t_device x) false (t_requires_grad x)
                            (contiguous_strides (t_size x)) (negb (t_requires_grad x))))
  | _ => Raise (TypeError "unsupported arguments")
  end.

(** A registry with one custom operation, which answers with a value of
    its own. *)
Definition ex_custom : Func := 1.

Definition ex_ops : gmap nat Handler :=
  {[ 1 := λ _ _ _ _, ret (VOther "int" 42) ]}.

Definition ex_torch : Torch :=
  mkTorch ex_zeros ex_call
    (λ x _, Ok x)
    (λ x y, Ok (mkTensor (t_size x) (zip_with Z.add (t_data x) (t_data y))
                         (t_dtype x) (t_device x) false
                         (t_requires_grad x || t_requires_grad y)
                         (contiguous_strides (t_size x))
                         (negb (t_requires_grad x || t_requires_grad y))))
    (λ x _, Ok x).

(** [ColoTensor( *size)]: nothing allocated yet. *)
Definition ex_lazy (size : list nat) : ColoTensor :=
  __init__ size None false false None (dense [0] [] float32 0 false false)
           (Some default_spec) false.

Definition ex_lazy_store : Store := mkStore [ex_lazy [2; 2]] 0.

Definition ex_zero_matrix : Tensor :=
  dense [2; 2] [0; 0; 0; 0]%Z float32 0 false false.

Definition ex_vector : Tensor := dense [2] [1; -2]%Z int64 0 false false.

Definition ex_negated : Tensor := dense [2] [-1; 2]%Z int64 0 false false.

Definition ex_store : Store := mkStore [colo_of ex_vector] 0.

(** The row shard of [ex_matrix], as an activation under a spec whose
    single action is the DataParallel one. *)
Definition ex_sharded_dp : ColoTensor := with_shard_spec (Some ex_dp) (ex_rows NONMODEL).

(** A 2 x 4 tensor that was never read, under the single action
    TP1DRow_Linear. *)
Definition ex_lazy_row_linear : ColoTensor :=
  with_shard_spec (Some ex_row_linear) (ex_lazy [2; 4]).

(** A 2 x 4 parameter of dtype float32 that requires gradients, and so
    does its storage. *)
Definition ex_param : ColoTensor :=
  mkColo [2; 4] (Some float32) true false None
         (dense [2; 4] [1; 2; 3; 4; 5; 6; 7; 8]%Z float32 0 false true)
         (Some ex_row_linear) NA MODEL.

(** The integer matrix [ex_full] in a tensor that declares
    [requires_grad=True]. *)
Definition ex_int_grad (type : TensorType) : ColoTensor :=
  mkColo [2; 4] None true false None ex_full (Some ex_row_linear) NA type.

(** [ex_odd] under another layout spec. *)
Definition ex_odd_under (spec : list ParallelAction) : ColoTensor :=
  with_shard_spec (Some (mkSpec spec)) ex_odd.

(** The row shard of [ex_matrix], given the single action
    TP1DRow_Linear. *)
Definition ex_resharded (type : TensorType) : ColoTensor :=
  with_shard_spec (Some ex_row_linear) (ex_rows type).

(** The same row shard under a spec of two actions, one of them the
    DataParallel one. *)
Definition ex_sharded_two : ColoTensor :=
  with_shard_spec (Some (mkSpec ex_two_actions)) (ex_rows NONMODEL).

(** The two ranks of the running example. *)
Definition ex_envs (rank : nat) : Env := spmd_env 2 rank ex_peers.

(** Native attributes: the method [neg] and the plain attribute [ndim]. *)
Definition ex_getattr (x : Tensor) (name : string) : option NativeAttr :=
  if bool_decide (name = "neg") then Some (Callable (λ args kw, ex_call ex_neg (VTensor x :: args) kw))
  else if bool_decide (name = "ndim") then Some (Plain (VOther "int" (length (t_size x))))
  else None.

(** * Properties *)

(** ** Buffers: cutting into chunks and putting them back *)

Lemma concat_chunks (ws c : nat) (B : list Z) :
  length B = ws * c →
  concat (map (λ r, take c (drop (r * c) B)) (seq 0 ws)) = B.
Proof.
  revert B. induction ws as [|ws IH]; intros B HB.
  - simpl in *. by destruct B.
  - rewrite <- cons_seq, <- fmap_S_seq. simpl.
    rewrite drop_0.
    change (map (λ r, take c (drop (r * c) B)) (S <$> seq 0 ws))
      with (map (λ r, take c (drop (r * c) B)) (map S (seq 0 ws))).
    rewrite map_map.
    transitivity (take c B ++ drop c B); [|apply take_drop]. f_equal.
    transitivity (concat (map (λ r, take c (drop (r * c) (drop c B))) (seq 0 ws))).
    + apply (f_equal (@concat Z)). apply map_ext. intros r. rewrite drop_drop.
      first [reflexivity | do 2 f_equal; lia].
    + apply IH. rewrite length_drop. lia.
Qed.

Lemma narrow_rows_length k blk off len l :
  length l = k * blk → off + len ≤ blk →
  length (narrow_rows k blk off len l) = k * len.
Proof.
  revert l. induction k as [|k IH]; intros l Hl Hle; simpl; [done|].
  rewrite length_app, IH; [|rewrite length_drop; lia|done].
  rewrite length_take, length_drop, length_take. simpl in Hl. lia.
Qed.

Lemma cat_rows_narrow_rows (k ws c : nat) (l : list Z) :
  length l = k * (ws * c) →
  cat_rows k (map (λ r, (c, narrow_rows k (ws * c) (r * c) c l)) (seq 0 ws)) = l.
Proof.
  revert l. induction k as [|k IH]; intros l Hl.
  - simpl in *. by destruct l.
  - cbn [cat_rows narrow_rows]. rewrite !map_map. cbn [fst snd].
    transitivity (take (ws * c) l ++ drop (ws * c) l); [|apply take_drop].
    assert (Hpiece : ∀ r, r < ws →
      length (take c (drop (r * c) (take (ws * c) l))) = c).
    { intros r Hr. rewrite length_take, length_drop, length_take.
      simpl in Hl. nia. }
    f_equal.
    + transitivity (concat (map (λ r, take c (drop (r * c) (take (ws * c) l))) (seq 0 ws))).
      * apply (f_equal (@concat Z)). apply map_ext_in. intros r Hr%in_seq.
        rewrite take_app_length'; [done|]. rewrite Hpiece; lia.
      * apply concat_chunks. rewrite length_take. simpl in Hl. lia.
    + transitivity (cat_rows k (map (λ r, (c, narrow_rows k (ws * c) (r * c) c
                                                (drop (ws * c) l))) (seq 0 ws))).
      * apply (f_equal (cat_rows k)). apply map_ext_in. intros r Hr%in_seq. f_equal.
        rewrite drop_app_length'; [done|]. rewrite Hpiece; lia.
      * apply IH. rewrite length_drop. simpl in Hl. lia.
Qed.

Lemma product_app s1 s2 : product (s1 ++ s2) = product s1 * product s2.
Proof. induction s1 as [|a s1 IH]; simpl; [lia|]. rewrite IH. lia. Qed.

Lemma product_split (s : list nat) d e :
  s !! d = Some e → product s = product (take d s) * (e * product (drop (S d) s)).
Proof.
  intros H. rewrite <- (take_drop_middle s d e H) at 1.
  by rewrite product_app.
Qed.

Lemma norm_dim_lt dim n d : norm_dim dim n = Some d → d < n.
Proof.
  unfold norm_dim. intros H.
  destruct (dim <? 0)%Z; case_match; simplify_eq; lia.
Qed.

Lemma norm_dim_last n : 0 < n → norm_dim (-1) n = Some (n - 1).
Proof.
  intros Hn. unfold norm_dim. simpl.
  case_match eqn:E; [f_equal; lia | lia].
Qed.

Lemma norm_dim_first n : 0 < n → norm_dim 0 n = Some 0.
Proof.
  intros Hn. unfold norm_dim. simpl. case_match eqn:E; [done | lia].
Qed.

Lemma narrow_ok (x : Tensor) dim d e start len :
  norm_dim dim (length (t_size x)) = Some d →
  t_size x !! d = Some e →
  start + len ≤ e →
  narrow x dim start len =
    Ok {| t_size := <[d := len]> (t_size x);
          t_data := narrow_rows (product (take d (t_size x)))
                      (e * product (drop (S d) (t_size x)))
                      (start * product (drop (S d) (t_size x)))
                      (len * product (drop (S d) (t_size x))) (t_data x);
          t_dtype := t_dtype x; t_device := t_device x;
          t_pinned := t_pinned x; t_requires_grad := t_requires_grad x;
          t_stride := t_stride x; t_is_leaf := negb (t_requires_grad x) |}.
Proof.
  intros Hd He Hle. unfold narrow. rewrite Hd, He. simpl.
  rewrite bool_decide_eq_false_2 by lia.
  by rewrite bool_decide_eq_true_2.
Qed.

Lemma sum_list_const (c : nat) {A} (f : A → nat) (l : list A) :
  (∀ a, In a l → f a = c) → sum_list (map f l) = length l * c.
Proof.
  induction l as [|a l IH]; intros H; simpl; [done|].
  rewrite (H a), IH; [lia | |]; intros; [apply H|]; simpl; auto.
Qed.

(** *** Detaching, copying and flagging the slice *)

Lemma contiguous_values (x : Tensor) :
  t_size (contiguous x) = t_size x ∧ t_data (contiguous x) = t_data x
  ∧ t_dtype (contiguous x) = t_dtype x ∧ t_device (contiguous x) = t_device x
  ∧ t_requires_grad (contiguous x) = t_requires_grad x.
Proof. unfold contiguous. by destruct (is_contiguous x). Qed.

Lemma contiguous_detach_leaf (x : Tensor) : t_is_leaf (contiguous (detach x)) = true.
Proof. unfold contiguous. by destruct (is_contiguous (detach x)). Qed.



Lemma set_requires_grad_leaf (x : Tensor) b :
  t_is_leaf x = true → flag_allowed b (t_dtype x) →
  set_requires_grad x b = Ok (with_requires_grad b x).
Proof.
  intros Hleaf Hflag. unfold set_requires_grad. rewrite Hleaf. simpl.
  destruct Hflag as [->| ->]; [done|]. by rewrite andb_false_r.
Qed.

Lemma set_requires_grad_refused (x : Tensor) :
  differentiable (t_dtype x) = false → set_requires_grad x true = Raise RuntimeError.
Proof.
  intros Hd. unfold set_requires_grad. rewrite Hd. by destruct (t_is_leaf x).
Qed.

Lemma set_requires_grad_slice (y : Tensor) b :
  flag_allowed b (t_dtype y) →
  set_requires_grad (contiguous (detach y)) b
    = Ok (with_requires_grad b (contiguous (detach y))).
Proof.
  intros Hflag. apply set_requires_grad_leaf; [apply contiguous_detach_leaf|].
  by destruct (contiguous_values (detach y)) as (_ & _ & -> & _).
Qed.

Lemma slice_values (y : Tensor) b :
  t_size (with_requires_grad b (contiguous (detach y))) = t_size y
  ∧ t_data (with_requires_grad b (contiguous (detach y))) = t_data y.
Proof. by destruct (contiguous_values (detach y)) as (Hs & Hd & _). Qed.

Lemma local_shard_ok (x : Tensor) dim c rg r y :
  narrow x dim (r * c) c = Ok y → flag_allowed rg (t_dtype y) →
  local_shard x dim c rg r = with_requires_grad rg (contiguous (detach y)).
Proof.
  intros Hn Hflag. unfold local_shard. by rewrite Hn, set_requires_grad_slice.
Qed.

Lemma cat_same_shape (xs : list Tensor) dim d (s0 : list nat) :
  xs ≠ [] → (∀ a, In a xs → t_size a = s0) →
  norm_dim dim (length s0) = Some d →
  ∃ y, cat xs dim = Ok y
       ∧ t_size y = <[d := length xs * default 0 (s0 !! d)]> s0
       ∧ t_data y = cat_rows (product (take d s0))
                      (map (λ a, (default 0 (s0 !! d) * product (drop (S d) s0), t_data a)) xs).
Proof.
  intros Hne Hall Hd. unfold cat. destruct xs as [|x0 xs']; [done|].
  remember (x0 :: xs') as L eqn:HL.
  rewrite (Hall x0) by (subst L; by left). rewrite Hd.
  assert (Hck : forallb (λ a, bool_decide (<[d:=0]> (t_size a) = <[d:=0]> s0)) L = true).
  { apply forallb_forall. intros a Ha. rewrite (Hall a Ha).
    by apply bool_decide_eq_true_2. }
  rewrite Hck. eexists. split; [done|]. cbn [t_size t_data]. split.
  - rewrite (sum_list_const (default 0 (s0 !! d))); [done|].
    intros a Ha. by rewrite (Hall a Ha).
  - f_equal. apply map_ext_in. intros a Ha. by rewrite (Hall a Ha).
Qed.

Lemma cat_local_shards (x : Tensor) dim d ws c rg :
  length (t_data x) = numel x →
  norm_dim dim (length (t_size x)) = Some d →
  t_size x !! d = Some (ws * c) →
  0 < ws →
  flag_allowed rg (t_dtype x) →
  ∃ y, cat (map (local_shard x dim c rg) (seq 0 ws)) dim = Ok y
       ∧ t_size y = t_size x ∧ t_data y = t_data x.
Proof.
  intros Hwf Hd He Hws Hflag.
  pose proof (norm_dim_lt _ _ _ Hd) as Hlt.
  set (inner := product (drop (S d) (t_size x))).
  set (outer := product (take d (t_size x))).
  assert (Hshard : ∀ r, r < ws →
    t_size (local_shard x dim c rg r) = <[d := c]> (t_size x)
    ∧ t_data (local_shard x dim c rg r)
      = narrow_rows outer (ws * (c * inner)) (r * (c * inner)) (c * inner) (t_data x)).
  { intros r Hr.
    pose proof (narrow_ok x dim d (ws * c) (r * c) c Hd He ltac:(nia)) as Hn.
    rewrite (local_shard_ok x dim c rg r _ Hn) by done.
    destruct (slice_values
                {| t_size := <[d := c]> (t_size x);
                   t_data := narrow_rows (product (take d (t_size x)))
                               (ws * c * product (drop (S d) (t_size x)))
                               (r * c * product (drop (S d) (t_size x)))
                               (c * product (drop (S d) (t_size x))) (t_data x);
                   t_dtype := t_dtype x; t_device := t_device x;
                   t_pinned := t_pinned x; t_requires_grad := t_requires_grad x;
                   t_stride := t_stride x; t_is_leaf := negb (t_requires_grad x) |} rg)
      as [-> ->].
    cbn [t_size t_data]. fold inner outer. split; [done|]. f_equal; lia. }
  destruct (cat_same_shape (map (local_shard x dim c rg) (seq 0 ws)) dim d
              (<[d := c]> (t_size x))) as (y & Hy & Hsz & Hdt).
  { destruct ws; [lia|]. done. }
  { intros a (r & <- & Hr%in_seq)%in_map_iff. apply Hshard. lia. }
  { by rewrite length_insert. }
  exists y. split; [done|].
  rewrite list_lookup_insert_eq in Hsz, Hdt by done. simpl in Hsz, Hdt.
  rewrite length_map, length_seq in Hsz. split.
  - rewrite Hsz, list_insert_insert_eq. by apply list_insert_id.
  - rewrite Hdt. rewrite take_insert_ge by lia. rewrite drop_insert_lt by lia.
    fold inner outer. rewrite map_map.
    rewrite (map_ext_in _ (λ r, (c * inner,
               narrow_rows outer (ws * (c * inner)) (r * (c * inner)) (c * inner) (t_data x)))).
    + apply cat_rows_narrow_rows.
      rewrite Hwf. unfold numel. rewrite (product_split _ _ _ He).
      fold inner outer. lia.
    + intros r Hr%in_seq. f_equal. apply Hshard. lia.
Qed.

(** ** The exact-division helper and tuple indexing *)

Ltac meth_unfold :=
  unfold bind, attr, assign, py_assert, ret, raise, lift_res, getattr_of,
    set_shard_pattern in *.

Lemma divide_ok n d : 0 < d → n mod d = 0 → divide n d = Ok (n / d).
Proof.
  intros Hd Hm. unfold divide.
  destruct (Nat.eqb_spec d 0); [lia|]. by rewrite Hm.
Qed.

Lemma divide_uneven n d : 0 < d → n mod d ≠ 0 → divide n d = Raise (NotDivisible n d).
Proof.
  intros Hd Hm. unfold divide.
  destruct (Nat.eqb_spec d 0); [lia|].
  by destruct (Nat.eqb_spec (n mod d) 0).
Qed.

Lemma divide_exact n d c : divide n d = Ok c → n = d * c ∧ 0 < d.
Proof.
  unfold divide. destruct (Nat.eqb_spec d 0); [done|].
  destruct (Nat.eqb_spec (n mod d) 0) as [Hm|]; [|done].
  intros [= <-]. split; [|lia].
  rewrite (Nat.div_mod n d) at 1 by done. lia.
Qed.


Lemma tuple_getitem_inv (t : list nat) dim e :
  tuple_getitem t dim = Ok e → ∃ d, norm_dim dim (length t) = Some d ∧ t !! d = Some e.
Proof.
  unfold tuple_getitem. destruct (norm_dim _ _) as [d|]; [|done].
  destruct (t !! d) eqn:E; [|done]. intros [= <-]. eauto.
Qed.

(** ** Shard and gather, for a fixed process-group context *)

Section Sharding.

Context (env : Env).

(** *** One method at a time *)

Lemma _shard_1d_unfold a dim t :
  _shard_1d env a dim t =
    match tuple_getitem (_size t) dim with
    | Raise e => (Raise e, t)
    | Ok extent =>
        match divide extent (get_world_size env (parallel_mode a)) with
        | Raise e => (Raise e, t)
        | Ok c =>
            match narrow (_torch_tensor t) dim
                    (get_local_rank env (parallel_mode a) * c) c with
            | Raise e => (Raise e, t)
            | Ok loc =>
                match set_requires_grad (contiguous (detach loc)) (_requires_grad t) with
                | Raise e => (Raise e, with_torch_tensor (contiguous (detach loc)) t)
                | Ok x => (Ok (), with_size (t_size x) (with_torch_tensor x t))
                end
            end
        end
    end.
Proof.
  unfold _shard_1d. meth_unfold. simpl.
  destruct (tuple_getitem _ _) as [ext|]; simpl; [|done].
  destruct (divide _ _) as [c|]; simpl; [|done].
  destruct (narrow _ _ _ _) as [loc|]; simpl; [|done].
  by destruct (set_requires_grad _ _).
Qed.

Lemma _shard_1d_ok a dim t e c loc :
  tuple_getitem (_size t) dim = Ok e →
  divide e (get_world_size env (parallel_mode a)) = Ok c →
  narrow (_torch_tensor t) dim (get_local_rank env (parallel_mode a) * c) c = Ok loc →
  flag_allowed (_requires_grad t) (t_dtype loc) →
  _shard_1d env a dim t =
    (Ok (), with_size (t_size loc)
              (with_torch_tensor
                 (with_requires_grad (_requires_grad t) (contiguous (detach loc))) t)).
Proof.
  intros H1 H2 H3 H4. rewrite _shard_1d_unfold, H1, H2, H3.
  rewrite (set_requires_grad_slice loc _ H4).
  by rewrite (proj1 (slice_values loc (_requires_grad t))).
Qed.

(** A failing [_shard_1d] has changed nothing, unless it fails where it
    sets the flag: the storage is then the detached slice already. *)
Lemma _shard_1d_raise a dim t e t' :
  _shard_1d env a dim t = (Raise e, t') →
  t' = t
  ∨ (e = RuntimeError ∧ _requires_grad t = true
     ∧ ∃ c loc,
         narrow (_torch_tensor t) dim (get_local_rank env (parallel_mode a) * c) c = Ok loc
         ∧ differentiable (t_dtype loc) = false
         ∧ t' = with_torch_tensor (contiguous (detach loc)) t).
Proof.
  rewrite _shard_1d_unfold.
  destruct (tuple_getitem _ _) as [ext|]; [|intros [= _ <-]; by left].
  destruct (divide _ _) as [c|]; [|intros [= _ <-]; by left].
  destruct (narrow _ _ _ _) as [loc|] eqn:Hn; [|intros [= _ <-]; by left].
  destruct (_requires_grad t) eqn:Hrg.
  - destruct (differentiable (t_dtype loc)) eqn:Hd.
    + rewrite set_requires_grad_slice by by right. done.
    + rewrite set_requires_grad_refused.
      * intros [= <- <-]. right. split; [done|]. split; [done|]. by exists c, loc.
      * by destruct (contiguous_values (detach loc)) as (_ & _ & -> & _).
  - rewrite set_requires_grad_slice by by left. done.
Qed.

Lemma narrow_dtype (x : Tensor) dim start len y :
  narrow x dim start len = Ok y → t_dtype y = t_dtype x.
Proof.
  unfold narrow. destruct (norm_dim _ _) as [d|]; [|by destruct (_ =? _)].
  simpl. repeat case_bool_decide; try done. by intros [= <-].
Qed.

Lemma _shard_1d_raise_allowed a dim t e t' :
  flag_allowed (_requires_grad t) (t_dtype (_torch_tensor t)) →
  _shard_1d env a dim t = (Raise e, t') → t' = t.
Proof.
  intros Hflag H. destruct (_shard_1d_raise _ _ _ _ _ H)
    as [->|(_ & Hrg & c & loc & Hn & Hd & _)]; [done|].
  rewrite (narrow_dtype _ _ _ _ _ Hn) in Hd.
  destruct Hflag; congruence.
Qed.

Lemma _shard_1d_uneven a dim t e :
  tuple_getitem (_size t) dim = Ok e →
  0 < get_world_size env (parallel_mode a) →
  e mod get_world_size env (parallel_mode a) ≠ 0 →
  _shard_1d env a dim t =
    (Raise (NotDivisible e (get_world_size env (parallel_mode a))), t).
Proof.
  intros H1 H2 H3. unfold _shard_1d. meth_unfold. simpl.
  rewrite H1. simpl. by rewrite divide_uneven.
Qed.

Lemma gather_ok t spec dp :
  _type t = NONMODEL → _shard_pattern t ≠ NA →
  _shard_spec t = Some spec →
  get_action_by_compute_pattern spec DP = Some dp →
  gather env t =
    let y := gather_forward_split_backward env (_torch_tensor t) (parallel_mode dp)
               (gather_dim (_shard_pattern t)) in
    (Ok (), with_size (t_size y) (with_shard_pattern NA (with_torch_tensor y t))).
Proof.
  intros Hty Hpat Hspec Hdp. unfold gather, is_activation, is_gathered. meth_unfold.
  simpl. rewrite Hty. rewrite bool_decide_eq_true_2 by done. simpl.
  rewrite (bool_decide_eq_false_2 _ Hpat). simpl.
  rewrite Hspec. simpl. rewrite Hdp.
  destruct (_shard_pattern t); done.
Qed.

Lemma gather_raise t e t' : gather env t = (Raise e, t') → t' = t.
Proof.
  unfold gather, is_activation, is_gathered. meth_unfold. simpl.
  case_bool_decide; simpl; [|by intros [= _ <-]].
  case_bool_decide; simpl; [by intros [= _ <-]|].
  destruct (_shard_spec t) as [spec|]; simpl; [|by intros [= _ <-]].
  destruct (_shard_pattern t); simpl; try done;
    destruct (get_action_by_compute_pattern spec DP); simpl; try done;
    by intros [= _ <-].
Qed.

Lemma gather_inv t t' :
  gather env t = (Ok (), t') →
  _type t = NONMODEL ∧ _shard_pattern t ≠ NA ∧
  ∃ spec dp, _shard_spec t = Some spec ∧
             get_action_by_compute_pattern spec DP = Some dp.
Proof.
  unfold gather, is_activation, is_gathered. meth_unfold. simpl.
  case_bool_decide; simpl; [|done].
  case_bool_decide; simpl; [done|].
  destruct (_shard_spec t) as [spec|]; simpl; [|done].
  destruct (get_action_by_compute_pattern spec DP) as [dp|] eqn:E.
  - intros _. eauto 10.
  - destruct (_shard_pattern t); simpl; done.
Qed.

Lemma implicit_gather_spec t r t1 :
  implicit_gather env t = (r, t1) → _shard_spec t1 = _shard_spec t.
Proof.
  unfold implicit_gather. destruct (is_gathered t); [by intros [= _ <-]|].
  destruct r as [[]|e].
  - intros H. destruct (gather_inv _ _ H) as (Hty & Hpat & spec & dp & Hs & Hdp).
    rewrite (gather_ok t spec dp) in H by done. simpl in H.
    by injection H as <-.
  - by intros ->%gather_raise.
Qed.

Lemma get_action_single a :
  get_action_by_compute_pattern (mkSpec [a]) (compute_pattern a) = Some a.
Proof.
  unfold get_action_by_compute_pattern. simpl.
  by rewrite bool_decide_eq_true_2.
Qed.

Lemma shard_unfold t spec :
  _shard_spec t = Some spec →
  shard env t =
    match implicit_gather env t with
    | (Raise e, t1) => (Raise e, t1)
    | (Ok _, t1) =>
        match parallel_action_list spec with
        | [a] =>
            match dispatch_table (compute_pattern a) with
            | Some (dim, pat) => (_shard_1d env a dim ;; set_shard_pattern pat) t1
            | None => (Raise NotImplementedError, t1)
            end
        | _ => (Ok (), t1)
        end
    end.
Proof.
  intros Hspec. unfold shard.
  unfold bind at 1. unfold attr at 1. unfold bind at 1. unfold py_assert.
  rewrite Hspec. rewrite bool_decide_eq_true_2 by done.
  unfold bind at 1. unfold attr at 1. unfold bind at 1.
  assert (Hb : bool_decide (_shard_pattern t ≠ NA) = negb (is_gathered t)).
  { unfold is_gathered. by repeat case_bool_decide. }
  rewrite Hb.
  assert (Hpre : implicit_gather env t
                 = (if negb (is_gathered t) then gather env else ret ()) t).
  { unfold implicit_gather. by destruct (is_gathered t). }
  rewrite <- Hpre.
  destruct (implicit_gather env t) as [r t1] eqn:Hg.
  pose proof (implicit_gather_spec _ _ _ Hg) as Hs1. rewrite Hspec in Hs1.
  destruct r as [[]|e]; [|done].
  unfold bind, attr, getattr_of. rewrite Hs1.
  destruct spec as [[|a [|b l]]]; simpl; try done.
  unfold ret. rewrite get_action_single.
  destruct a as [cp m]; destruct cp; done.
Qed.

(** *** [_shard_1d] and [gather] *)

(** A one-dimensional tensor is narrowed to the elements
    [start, start + len). *)
Lemma narrow_vector (x : Tensor) n start len :
  t_size x = [n] → length (t_data x) = n → start + len ≤ n →
  ∃ y, narrow x 0 start len = Ok y
       ∧ t_size y = [len]
       ∧ t_data y = take len (drop start (t_data x)).
Proof.
  intros Hs Hl Hle. eexists. split.
  - apply (narrow_ok x 0 0 n start len); rewrite ?Hs; done.
  - rewrite Hs. simpl. split; [done|].
    rewrite !Nat.mul_1_r, app_nil_r. f_equal. f_equal. apply take_ge. lia.
Qed.


(** C6.  [gather] raises an assertion error, and changes nothing, on a
    ModelData tensor whatever its shard pattern, and on a tensor that is
    not sharded.  When it returns, the tensor was a sharded activation
    whose spec declares a DataParallel action; the storage is what the
    collective gives for that action's process group along dimension 0
    (RowSharded) or the last dimension, -1 (ColumnSharded); the pattern
    is NotApplicable and the logical size is the shape of the gathered
    storage.  A sharded activation with a DataParallel action is
    gathered. *)
Theorem gather_checks_then_gathers t :
  (_type t = MODEL →
     gather env t =
       (Raise (AssertionError "Currently we only support gather Activation ColoTensor."), t))
  ∧ (_type t = NONMODEL → _shard_pattern t = NA →
     gather env t =
       (Raise (AssertionError "Only sharded ColoTensor can be gathered."), t))
  ∧ (∀ t', gather env t = (Ok (), t') →
       _type t = NONMODEL ∧ _shard_pattern t ≠ NA ∧
       ∃ spec dp y,
         _shard_spec t = Some spec
         ∧ get_action_by_compute_pattern spec DP = Some dp
         ∧ y = gather_forward_split_backward env (_torch_tensor t) (parallel_mode dp)
                 (match _shard_pattern t with Row => 0%Z | _ => (-1)%Z end)
         ∧ _torch_tensor t' = y
         ∧ _shard_pattern t' = NA
         ∧ _size t' = t_size y
         ∧ t' = with_size (t_size y) (with_shard_pattern NA (with_torch_tensor y t)))
  ∧ (∀ spec dp, _type t = NONMODEL → _shard_pattern t ≠ NA →
       _shard_spec t = Some spec → get_action_by_compute_pattern spec DP = Some dp →
       ∃ t', gather env t = (Ok (), t')).
Proof.
  repeat split.
  - intros Hty. unfold gather, is_activation. meth_unfold. simpl.
    rewrite Hty. by rewrite bool_decide_eq_false_2.
  - intros Hty Hpat. unfold gather, is_activation, is_gathered. meth_unfold. simpl.
    rewrite Hty. rewrite bool_decide_eq_true_2 by done. simpl.
    rewrite Hpat. by rewrite bool_decide_eq_true_2.
  - by destruct (gather_inv _ _ H) as (? & ? & _).
  - by destruct (gather_inv _ _ H) as (? & ? & _).
  - destruct (gather_inv _ _ H) as (Hty & Hpat & spec & dp & Hs & Hdp).
    rewrite (gather_ok t spec dp) in H by done. simpl in H.
    injection H as <-. exists spec, dp. eexists. repeat split; try done.
  - intros spec dp Hty Hpat Hs Hdp. rewrite (gather_ok t spec dp) by done.
    eauto.
Qed.

(** *** [shard] *)


(** C2, as amended.  Under a layout spec whose number of actions is not
    one, [shard] does no more than the implicit gather of an already
    sharded tensor: it raises no NotImplementedError of its own, and a
    tensor that is not sharded is returned unchanged. *)
Theorem shard_skips_unless_single_action t spec :
  _shard_spec t = Some spec →
  num_action spec ≠ 1 →
  shard env t = implicit_gather env t
  ∧ (_shard_pattern t = NA → shard env t = (Ok (), t)).
Proof.
  intros Hspec Hn. rewrite (shard_unfold t spec Hspec).
  assert (H1 : ∀ r t1, match r with
     | Ok _ => match parallel_action_list spec with
               | [a] => match dispatch_table (compute_pattern a) with
                        | Some (dim, pat) => (_shard_1d env a dim;; set_shard_pattern pat) t1
                        | None => (Raise NotImplementedError, t1)
                        end
               | _ => (Ok (), t1)
               end
     | Raise e => (Raise e, t1) end = (r : Res unit, t1)).
  { intros [[]|e] t1; [|done]. by destruct spec as [[|a [|b l]]]. }
  split.
  - destruct (implicit_gather env t) as [r t1]. apply H1.
  - intros Hna. unfold implicit_gather, is_gathered.
    rewrite bool_decide_eq_true_2 by done. apply (H1 (Ok ())).
Qed.

(** C7, as amended.  A tensor that is not sharded, under a single action
    of a recognised pattern, with an extent [e] along the shard dimension
    that the world size does not divide: [shard] raises the error of the
    exact-division helper (the error of a division by zero when the
    world size is zero) and leaves every attribute of the tensor as it
    was. *)
Theorem shard_uneven_fails_unchanged t a dim pat e ws :
  get_world_size env (parallel_mode a) = ws →
  _shard_pattern t = NA →
  _shard_spec t = Some (mkSpec [a]) →
  dispatch_table (compute_pattern a) = Some (dim, pat) →
  tuple_getitem (_size t) dim = Ok e →
  e mod ws ≠ 0 →
  shard env t = (Raise (if ws =? 0 then ZeroDivisionError else NotDivisible e ws), t).
Proof.
  intros <- Hna Hspec Hd He Hmod.
  rewrite (shard_unfold t _ Hspec). unfold implicit_gather, is_gathered.
  rewrite bool_decide_eq_true_2 by done. simpl. rewrite Hd.
  unfold bind. rewrite _shard_1d_unfold, He.
  destruct (Nat.eqb_spec (get_world_size env (parallel_mode a)) 0) as [H0|H0].
  - by rewrite H0.
  - rewrite divide_uneven; [done|lia|done].
Qed.

(** X19.  Re-sharding never produces a shard: whenever [shard] returns on
    a tensor that was sharded, the tensor is left gathered.  The implicit
    gather needs a DataParallel action in the spec; a spec that has one
    is either not dispatched (several actions) or dispatched on the
    DataParallel pattern, which is not implemented. *)
Lemma reshard_never_shards t spec r t' :
  _shard_pattern t ≠ NA →
  _shard_spec t = Some spec →
  shard env t = (r, t') →
  match r with
  | Ok _ => _shard_pattern t' = NA
  | Raise _ => True
  end.
Proof.
  intros Hpat Hspec. rewrite (shard_unfold t spec Hspec).
  unfold implicit_gather, is_gathered. rewrite bool_decide_eq_false_2 by done.
  destruct (gather env t) as [[[]|e] t1] eqn:Hg; [|by intros [= <- <-]].
  destruct (gather_inv _ _ Hg) as (Hty & _ & spec' & dp & Hs & Hdp).
  rewrite Hspec in Hs. injection Hs as <-.
  rewrite (gather_ok t spec dp) in Hg by done. simpl in Hg. injection Hg as <-.
  destruct spec as [[|a [|b l]]]; simpl; try by intros [= <- <-].
  unfold get_action_by_compute_pattern in Hdp. simpl in Hdp.
  case_bool_decide as Ha; [|done]. rewrite Ha. simpl. by intros [= <- <-].
Qed.

(** X20.  Under a single action of a recognised pattern, re-sharding
    fails in the implicit gather and the tensor keeps its old shard. *)
Lemma reshard_single_action_fails t a :
  _shard_pattern t ≠ NA →
  _shard_spec t = Some (mkSpec [a]) →
  is_Some (dispatch_table (compute_pattern a)) →
  ∃ e, shard env t = (Raise e, t).
Proof.
  intros Hpat Hspec [[dim pat] Hd].
  rewrite (shard_unfold t _ Hspec).
  unfold implicit_gather, is_gathered. rewrite bool_decide_eq_false_2 by done.
  destruct (gather env t) as [[[]|e] t1] eqn:Hg.
  - destruct (gather_inv _ _ Hg) as (_ & _ & spec' & dp & Hs & Hdp).
    rewrite Hspec in Hs. injection Hs as <-.
    unfold get_action_by_compute_pattern in Hdp. simpl in Hdp.
    case_bool_decide as Ha; [|done]. by rewrite Ha in Hd.
  - rewrite (gather_raise _ _ _ Hg). eauto.
Qed.

(** *** The round trip *)

Lemma dispatch_table_gather_dim p dim pat :
  dispatch_table p = Some (dim, pat) → pat ≠ NA ∧ gather_dim pat = dim.
Proof. destruct p; simpl; intros [= <- <-]; done. Qed.

Lemma shard_ok t a dim pat e ws rank :
  get_world_size env (parallel_mode a) = ws →
  get_local_rank env (parallel_mode a) = rank →
  _shard_pattern t = NA →
  _shard_spec t = Some (mkSpec [a]) →
  dispatch_table (compute_pattern a) = Some (dim, pat) →
  t_size (_torch_tensor t) = _size t →
  flag_allowed (_requires_grad t) (t_dtype (_torch_tensor t)) →
  tuple_getitem (_size t) dim = Ok e →
  e mod ws = 0 → rank < ws →
  shard env t =
    (Ok (),
     with_shard_pattern pat
       (with_size (t_size (local_shard (_torch_tensor t) dim (e / ws) (_requires_grad t) rank))
          (with_torch_tensor
             (local_shard (_torch_tensor t) dim (e / ws) (_requires_grad t) rank) t))).
Proof.
  intros <- <- Hna Hspec Hd Hshape Hflag He Hmod Hrank.
  set (ws := get_world_size env (parallel_mode a)) in *.
  set (rank := get_local_rank env (parallel_mode a)) in *.
  destruct (tuple_getitem_inv _ _ _ He) as (d & Hnd & Hlk).
  rewrite (shard_unfold t _ Hspec). unfold implicit_gather, is_gathered.
  rewrite bool_decide_eq_true_2 by done. simpl. rewrite Hd.
  assert (Hdiv : divide e ws = Ok (e / ws)) by (apply divide_ok; [lia|done]).
  destruct (divide_exact _ _ _ Hdiv) as [Hex _].
  assert (Hn := narrow_ok (_torch_tensor t) dim d e (rank * (e / ws)) (e / ws)).
  rewrite Hshape in Hn. specialize (Hn Hnd Hlk ltac:(nia)).
  unfold bind.
  rewrite (_shard_1d_ok a dim t e (e / ws) _ He Hdiv Hn Hflag).
  rewrite (local_shard_ok _ _ _ _ _ _ Hn Hflag).
  rewrite (proj1 (slice_values _ _)). done.
Qed.

(** C1, as amended.  An activation that is not sharded, whose storage
    holds all the elements of its logical shape, and whose requires-grad
    flag is off unless the storage is of a floating point or complex
    dtype, is sharded under a single action of a recognised pattern, with
    a world size that divides the extent along the shard dimension; it is
    then given, without sharding again, a spec that declares a
    DataParallel action over the same process group, and gathered.  If the collective returns the concatenation, along the
    shard dimension and in rank order, of what the ranks keep of the full
    tensor, the storage has again the shape and the elements of the
    original, the logical size is the original one and the tensor is not
    sharded. *)
Theorem shard_gather_roundtrip t a dim pat e spec' dp ws rank :
  get_world_size env (parallel_mode a) = ws →
  get_local_rank env (parallel_mode a) = rank →
  _type t = NONMODEL →
  _shard_pattern t = NA →
  _shard_spec t = Some (mkSpec [a]) →
  dispatch_table (compute_pattern a) = Some (dim, pat) →
  t_size (_torch_tensor t) = _size t →
  length (t_data (_torch_tensor t)) = numel (_torch_tensor t) →
  flag_allowed (_requires_grad t) (t_dtype (_torch_tensor t)) →
  tuple_getitem (_size t) dim = Ok e →
  e mod ws = 0 → rank < ws →
  get_action_by_compute_pattern spec' DP = Some dp →
  parallel_mode dp = parallel_mode a →
  cat (map (local_shard (_torch_tensor t) dim (e / ws) (_requires_grad t)) (seq 0 ws)) dim
    = Ok (gather_forward_split_backward env
            (local_shard (_torch_tensor t) dim (e / ws) (_requires_grad t) rank)
            (parallel_mode a) dim) →
  ∃ t', (shard env ;; set_spec env (Some spec') false ;; gather env) t = (Ok (), t')
        ∧ t_size (_torch_tensor t') = t_size (_torch_tensor t)
        ∧ t_data (_torch_tensor t') = t_data (_torch_tensor t)
        ∧ _size t' = _size t
        ∧ _shard_pattern t' = NA.
Proof.
  intros Hws_eq Hrank_eq Hty Hna Hspec Hd Hshape Hwf Hflag He Hmod Hrank Hdp Hmode Hcoll.
  set (x := _torch_tensor t) in *.
  set (shard_of := local_shard x dim (e / ws) (_requires_grad t)) in *.
  destruct (tuple_getitem_inv _ _ _ He) as (d & Hnd & Hlk).
  destruct (dispatch_table_gather_dim _ _ _ Hd) as [Hpat Hgd].
  assert (Hdiv : divide e ws = Ok (e / ws)) by (apply divide_ok; [lia|done]).
  destruct (divide_exact _ _ _ Hdiv) as [Hex _].
  destruct (cat_local_shards x dim d ws (e / ws) (_requires_grad t)) as (y & Hy & Hsz & Hdt);
    [done | by rewrite Hshape | rewrite Hshape, Hlk; f_equal; lia | lia | done |].
  fold shard_of in Hy. rewrite Hcoll in Hy. injection Hy as Hy.
  unfold bind at 1.
  rewrite (shard_ok t a dim pat e ws rank) by done. fold x shard_of.
  unfold bind at 1. unfold set_spec, bind, assign, ret.
  set (t2 := with_shard_spec _ _).
  rewrite (gather_ok t2 spec' dp) by done.
  simpl. rewrite Hgd, Hmode, Hy. eexists. split; [done|]. simpl.
  rewrite Hsz. done.
Qed.

End Sharding.

(** The assumption on the collective holds in a world where every rank
    has cut its chunk from the same full tensor. *)
Lemma spmd_env_concatenates ws rank peers (x : Tensor) dim c rg m y :
  rank < ws →
  peers dim = map (local_shard x dim c rg) (seq 0 ws) →
  cat (peers dim) dim = Ok y →
  cat (map (local_shard x dim c rg) (seq 0 ws)) dim
    = Ok (gather_forward_split_backward (spmd_env ws rank peers)
            (local_shard x dim c rg rank) m dim).
Proof.
  intros Hrank Hpeers Hcat. simpl.
  rewrite list_insert_id; [by rewrite <- Hpeers, Hcat|].
  rewrite Hpeers. change map with (@fmap list _) at 1.
  by rewrite list_lookup_fmap, lookup_seq_lt.
Qed.

(** ** Shard and gather on the running examples *)


(** On the running example, rank 1 of 2 keeps the right half of each
    row.  The slice that [narrow] cuts from a storage that requires
    gradients is neither a leaf nor contiguous; the storage that
    [_shard_1d] leaves is both. *)
Example shard_1d_right_half :
  t_data (_torch_tensor
            (_shard_1d ex_env (mkAction TP1DRow_Linear 1) (-1) (ex_colo [] NONMODEL)).2)
    = [3; 4; 7; 8]%Z
  ∧ match narrow (_torch_tensor ex_param) (-1) 2 2 with
    | Ok y => t_is_leaf y = false ∧ is_contiguous y = false
    | Raise _ => False
    end
  ∧ t_stride (_torch_tensor (_shard_1d ex_env (mkAction TP1DRow_Linear 1) (-1) ex_param).2)
    = [2; 1].
Proof. vm_compute. repeat split; done. Qed.



(** The four recognised patterns and one other, on the running example
    (rank 1 of 2, a 2 x 4 matrix). *)
Example shard_dispatch_examples :
  (_shard_pattern (shard ex_env (ex_colo [mkAction TP1DRow_Linear 1] MODEL)).2 = Col
   ∧ _size (shard ex_env (ex_colo [mkAction TP1DRow_Linear 1] MODEL)).2 = [2; 2])
  ∧ (_shard_pattern (shard ex_env (ex_colo [mkAction TP1DCol_Embedding 1] MODEL)).2 = Col
     ∧ _size (shard ex_env (ex_colo [mkAction TP1DCol_Embedding 1] MODEL)).2 = [2; 2])
  ∧ (_shard_pattern (shard ex_env (ex_colo [mkAction TP1DCol_Linear 1] MODEL)).2 = Row
     ∧ _size (shard ex_env (ex_colo [mkAction TP1DCol_Linear 1] MODEL)).2 = [1; 4])
  ∧ (_shard_pattern (shard ex_env (ex_colo [mkAction TP1DRow_Embedding 1] MODEL)).2 = Row
     ∧ _size (shard ex_env (ex_colo [mkAction TP1DRow_Embedding 1] MODEL)).2 = [1; 4])
  ∧ shard ex_env (ex_colo [mkAction DP 1] MODEL)
    = (Raise NotImplementedError, ex_colo [mkAction DP 1] MODEL).
Proof. vm_compute. repeat split; done. Qed.

Lemma shard_skips_unless_single_action_witness :
  shard ex_env (ex_colo ex_two_actions NONMODEL)
    = implicit_gather ex_env (ex_colo ex_two_actions NONMODEL)
  ∧ (NA = NA → shard ex_env (ex_colo ex_two_actions NONMODEL)
                 = (Ok (), ex_colo ex_two_actions NONMODEL)).
Proof.
  apply (shard_skips_unless_single_action ex_env (ex_colo ex_two_actions NONMODEL)
           (mkSpec ex_two_actions)); [reflexivity | vm_compute; lia].
Defined.

(** C2, as stated, fails: with two declared actions, and with none,
    [shard] returns normally and leaves the tensor as it was. *)
Lemma shard_two_actions_returns :
  num_action (mkSpec ex_two_actions) = 2
  ∧ shard ex_env (ex_colo ex_two_actions NONMODEL)
      = (Ok (), ex_colo ex_two_actions NONMODEL)
  ∧ (shard ex_env (ex_colo ex_two_actions NONMODEL)).1 ≠ Raise NotImplementedError
  ∧ num_action default_spec = 0
  ∧ shard ex_env (ex_colo [] NONMODEL) = (Ok (), ex_colo [] NONMODEL).
Proof. vm_compute. repeat split; done. Qed.

Lemma shard_uneven_fails_unchanged_witness :
  shard ex_env ex_odd = (Raise (NotDivisible 3 2), ex_odd).
Proof.
  apply (shard_uneven_fails_unchanged ex_env ex_odd (mkAction TP1DCol_Linear 1) 0 Row 3 2);
    first [reflexivity | vm_compute; lia].
Defined.

(** C7, as stated, fails: an extent that the world size does not divide
    does not make [shard] raise a division error unless the dispatch
    reaches the division.  The vector [ex_odd] has three elements, for
    two ranks.  Under a spec without action, and under one with two
    actions, [shard] returns and leaves it whole; under a single action
    of a pattern that is not recognised, DataParallel or another, it
    raises NotImplementedError.  And a tensor that is already sharded,
    with the odd local extent 3, stops in the implicit gather, with an
    attribute error for an activation and an assertion error for model
    data. *)
Lemma shard_uneven_without_division_error :
  (tuple_getitem (_size ex_odd) 0 = Ok 3 ∧ 3 mod get_world_size ex_env 1 ≠ 0)
  ∧ shard ex_env (ex_odd_under []) = (Ok (), ex_odd_under [])
  ∧ shard ex_env (ex_odd_under ex_two_actions) = (Ok (), ex_odd_under ex_two_actions)
  ∧ shard ex_env (ex_odd_under [mkAction DP 1])
    = (Raise NotImplementedError, ex_odd_under [mkAction DP 1])
  ∧ shard ex_env (ex_odd_under [mkAction (OtherPattern 0) 1])
    = (Raise NotImplementedError, ex_odd_under [mkAction (OtherPattern 0) 1])
  ∧ (_shard_pattern (ex_half NONMODEL) = Row
     ∧ tuple_getitem (_size (ex_half NONMODEL)) 0 = Ok 3
     ∧ shard ex_env (ex_half NONMODEL) = (Raise AttributeError, ex_half NONMODEL)
     ∧ shard ex_env (ex_half MODEL) =
         (Raise (AssertionError "Currently we only support gather Activation ColoTensor."),
          ex_half MODEL)).
Proof. vm_compute. repeat split; done. Qed.

(** C3, the code at the failing input.  The 2 x 4 matrix is sharded by
    rows (rank 1 keeps the second row) and is then given the single
    action TP1DRow_Linear: [set_spec] raises in the implicit gather, an
    attribute error for an activation (the new spec has no DataParallel
    action) and an assertion error for model data; the tensor keeps the
    row shard [5; 6; 7; 8], where a direct shard of the matrix under the
    new spec holds [3; 4; 7; 8]. *)
Lemma reshard_fails_in_gather :
  _shard_pattern (ex_rows NONMODEL) = Row
  ∧ t_data (_torch_tensor (ex_rows NONMODEL)) = [5; 6; 7; 8]%Z
  ∧ set_spec ex_env (Some ex_row_linear) true (ex_rows NONMODEL)
      = (Raise AttributeError, with_shard_spec (Some ex_row_linear) (ex_rows NONMODEL))
  ∧ set_spec ex_env (Some ex_row_linear) true (ex_rows MODEL)
      = (Raise (AssertionError "Currently we only support gather Activation ColoTensor."),
         with_shard_spec (Some ex_row_linear) (ex_rows MODEL))
  ∧ t_data (_torch_tensor (shard ex_env (ex_matrix ex_row_linear NONMODEL)).2)
      = [3; 4; 7; 8]%Z.
Proof. vm_compute. repeat split; done. Qed.

Lemma shard_gather_roundtrip_witness :
  ∃ t', (shard ex_env ;; set_spec ex_env (Some ex_dp) false ;; gather ex_env)
          (ex_matrix ex_row_linear NONMODEL) = (Ok (), t')
        ∧ t_size (_torch_tensor t') = [2; 4]
        ∧ t_data (_torch_tensor t') = [1; 2; 3; 4; 5; 6; 7; 8]%Z
        ∧ _size t' = [2; 4]
        ∧ _shard_pattern t' = NA.
Proof.
  apply (shard_gather_roundtrip ex_env (ex_matrix ex_row_linear NONMODEL)
           (mkAction TP1DRow_Linear 1) (-1) Col 4 ex_dp (mkAction DP 1) 2 1);
    first [reflexivity | vm_compute; lia].
Defined.

(** C1, as stated, fails, with a world size of 2 that divides every
    extent at hand and a collective that concatenates the shards in rank
    order.  Right after [shard] under the single action, [gather] raises,
    with an attribute error on an activation (the spec has no
    DataParallel action) and with an assertion error on model data, and
    the tensor keeps its shard [3; 4; 7; 8].  And [shard] itself raises
    on a tensor that is already sharded (in the implicit gather), on a
    tensor that was never read (its storage is the empty placeholder,
    which [narrow] refuses), and on an integer storage with the
    requires-grad flag on (the flag is refused once the storage has been
    replaced by the shard), and for a rank that is not below the world
    size (the slice overruns the extent). *)
Lemma gather_after_shard_fails :
  (shard ex_env (ex_matrix ex_row_linear NONMODEL)
     = (Ok (), (shard ex_env (ex_matrix ex_row_linear NONMODEL)).2)
   ∧ (shard ex_env ;; gather ex_env) (ex_matrix ex_row_linear NONMODEL)
     = (Raise AttributeError, (shard ex_env (ex_matrix ex_row_linear NONMODEL)).2)
   ∧ (shard ex_env ;; gather ex_env) (ex_matrix ex_row_linear MODEL)
     = (Raise (AssertionError "Currently we only support gather Activation ColoTensor."),
        (shard ex_env (ex_matrix ex_row_linear MODEL)).2)
   ∧ t_data (_torch_tensor (shard ex_env (ex_matrix ex_row_linear NONMODEL)).2)
     = [3; 4; 7; 8]%Z)
  ∧ (_shard_pattern (ex_resharded NONMODEL) = Row
     ∧ tuple_getitem (_size (ex_resharded NONMODEL)) (-1) = Ok 4
     ∧ shard ex_env (ex_resharded NONMODEL)
       = (Raise AttributeError, ex_resharded NONMODEL))
  ∧ (_size ex_lazy_row_linear = [2; 4]
     ∧ t_size (_torch_tensor ex_lazy_row_linear) = [0]
     ∧ shard ex_env ex_lazy_row_linear = (Raise IndexError, ex_lazy_row_linear))
  ∧ (_requires_grad (ex_int_grad NONMODEL) = true
     ∧ t_dtype (_torch_tensor (ex_int_grad NONMODEL)) = int64
     ∧ (shard ex_env (ex_int_grad NONMODEL)).1 = Raise RuntimeError
     ∧ t_data (_torch_tensor (shard ex_env (ex_int_grad NONMODEL)).2) = [3; 4; 7; 8]%Z
     ∧ _size (shard ex_env (ex_int_grad NONMODEL)).2 = [2; 4]
     ∧ _shard_pattern (shard ex_env (ex_int_grad NONMODEL)).2 = NA)
  ∧ shard (spmd_env 2 2 ex_peers) (ex_matrix ex_row_linear NONMODEL)
    = (Raise RuntimeError, ex_matrix ex_row_linear NONMODEL).
Proof. vm_compute. repeat split; done. Qed.

(** ** Lazy storage, derivation and interception, for a fixed torch *)

Ltac prog_unfold :=
  unfold bind, ret, raise, attr, assign, lift_res, deref, update, new_object,
    torch_empty in *.

Section Interception.

Context (T : Torch).

(** *** Reading the storage *)

Lemma torch_tensor_materialised σ l c :
  objs σ !! l = Some c → numel (_torch_tensor c) ≠ 0 →
  torch_tensor T l σ = (Ok (_torch_tensor c), σ).
Proof.
  intros Hl Hn. unfold torch_tensor. prog_unfold. rewrite Hl.
  destruct (Nat.eqb_spec (numel (_torch_tensor c)) 0); [done|].
  by rewrite Hl.
Qed.

Lemma torch_tensor_lazy σ l c x :
  objs σ !! l = Some c → numel (_torch_tensor c) = 0 →
  empty T (_size c) (_dtype c) (_pin_memory c) (_requires_grad c) (_device c) (allocs σ)
    = Ok x →
  torch_tensor T l σ
    = (Ok x, mkStore (alter (with_torch_tensor x) l (objs σ)) (S (allocs σ))).
Proof.
  intros Hl Hn He. unfold torch_tensor. prog_unfold. rewrite Hl, Hn. simpl.
  rewrite He. simpl. rewrite list_lookup_alter_eq, Hl. done.
Qed.

Lemma torch_tensor_inv σ l r σ' :
  torch_tensor T l σ = (r, σ') →
  length (objs σ') = length (objs σ)
  ∧ (∀ l' c', objs σ !! l' = Some c' → numel (_torch_tensor c') ≠ 0 →
              objs σ' !! l' = Some c')
  ∧ (∀ x, r = Ok x → ∃ c, objs σ' !! l = Some c ∧ _torch_tensor c = x).
Proof.
  unfold torch_tensor. prog_unfold.
  destruct (objs σ !! l) as [c|] eqn:Hl; [|by intros [= <- <-]].
  destruct (Nat.eqb_spec (numel (_torch_tensor c)) 0) as [Hn|Hn].
  - destruct (empty T _ _ _ _ _ _) as [x|e]; simpl; [|by intros [= <- <-]].
    rewrite list_lookup_alter_eq, Hl. simpl. intros [= <- <-]. simpl.
    split; [by rewrite length_alter|]. split.
    + intros l' c' Hl' Hn'. destruct (decide (l = l')) as [->|Hne].
      * rewrite Hl in Hl'. by simplify_eq.
      * by rewrite list_lookup_alter_ne.
    + intros ? [= <-]. eexists. rewrite list_lookup_alter_eq, Hl. done.
  - rewrite Hl. intros [= <- <-]. repeat split; [done|].
    intros ? [= <-]. eauto.
Qed.

(** C9, as amended.  Reading the storage of a tensor whose storage has
    no element allocates a buffer with the declared size, dtype, pinning,
    requires-grad flag and device, returns it and keeps it as the
    tensor's storage; when that buffer has an element, a later read
    returns the same buffer and changes nothing, the allocation count
    included. *)
Theorem torch_tensor_allocates_once σ l c x :
  objs σ !! l = Some c →
  numel (_torch_tensor c) = 0 →
  empty T (_size c) (_dtype c) (_pin_memory c) (_requires_grad c) (_device c) (allocs σ)
    = Ok x →
  torch_tensor T l σ
    = (Ok x, mkStore (alter (with_torch_tensor x) l (objs σ)) (S (allocs σ)))
  ∧ alter (with_torch_tensor x) l (objs σ) !! l = Some (with_torch_tensor x c)
  ∧ (numel x ≠ 0 →
     torch_tensor T l (mkStore (alter (with_torch_tensor x) l (objs σ)) (S (allocs σ)))
       = (Ok x, mkStore (alter (with_torch_tensor x) l (objs σ)) (S (allocs σ)))).
Proof.
  intros Hl Hn He.
  assert (Hl' : alter (with_torch_tensor x) l (objs σ) !! l
                = Some (with_torch_tensor x c)).
  { by rewrite list_lookup_alter_eq, Hl. }
  split; [by apply (torch_tensor_lazy σ l c x)|]. split; [done|].
  intros Hx.
  by apply (torch_tensor_materialised (mkStore _ _) l (with_torch_tensor x c)).
Qed.

(** *** Wrapping a native tensor *)

Lemma init_from_torch_tensor_payload x is_model σ :
  init_from_torch_tensor T x true is_model σ
    = (Ok (length (objs σ)),
       mkStore (objs σ ++ [__init__ (t_size x) (Some (t_dtype x)) (t_requires_grad x)
                             (t_pinned x) (Some (t_device x)) x (Some default_spec)
                             is_model])
               (allocs σ)).
Proof. done. Qed.

Lemma init_from_torch_tensor_inv x save is_model σ loc σ' :
  init_from_torch_tensor T x save is_model σ = (Ok loc, σ') →
  loc = length (objs σ)
  ∧ ∃ c, objs σ' = objs σ ++ [c] ∧ fresh_layout c.
Proof.
  unfold init_from_torch_tensor. prog_unfold. destruct save.
  - intros [= <- <-]. split; [done|]. eexists. split; [done|]. by repeat split.
  - destruct (empty T _ _ _ _ _ _) as [y|e]; [|done].
    intros [= <- <-]. split; [done|]. eexists. split; [done|]. by repeat split.
Qed.

Lemma lookup_new {A} (l : list A) (c : A) : (l ++ [c]) !! length l = Some c.
Proof. by rewrite lookup_app_r, Nat.sub_diag by lia. Qed.

Lemma wrap_if_tensor_spec v σ :
  ∃ w σ', wrap_if_tensor T v σ = (Ok w, σ')
          ∧ rewrapped σ' v w
          ∧ (∃ new, objs σ' = objs σ ++ new ∧ Forall fresh_layout new)
          ∧ allocs σ' = allocs σ.
Proof.
  destruct v; simpl; try by (eexists _, _; repeat split; try done; exists []; by rewrite app_nil_r).
  unfold bind, ret. rewrite init_from_torch_tensor_payload.
  eexists _, _. split; [done|]. split; [|split; [|done]].
  - eexists. split; [done|]. simpl. apply lookup_new.
  - eexists [_]. split; [done|]. constructor; [by repeat split|constructor].
Qed.

Lemma rewrapped_mono σ σ' v w :
  (∃ new, objs σ' = objs σ ++ new) → rewrapped σ v w → rewrapped σ' v w.
Proof.
  intros [new Hnew]. destruct v; simpl; try done.
  intros (loc & -> & Hl). exists loc. split; [done|].
  rewrite Hnew. by apply lookup_app_l_Some.
Qed.

Lemma for_each_wrap_spec vs σ :
  ∃ ws σ', for_each (wrap_if_tensor T) vs σ = (Ok ws, σ')
           ∧ Forall2 (rewrapped σ') vs ws
           ∧ (∃ new, objs σ' = objs σ ++ new ∧ Forall fresh_layout new)
           ∧ allocs σ' = allocs σ.
Proof.
  revert σ. induction vs as [|v vs IH]; intros σ.
  - exists [], σ. repeat split; [constructor|]. exists []. by rewrite app_nil_r.
  - destruct (wrap_if_tensor_spec v σ) as (w & σ1 & Hw & Hr & (n1 & Hn1 & Hf1) & Ha1).
    destruct (IH σ1) as (ws & σ2 & Hws & Hrs & (n2 & Hn2 & Hf2) & Ha2).
    exists (w :: ws), σ2. simpl. unfold bind at 1. rewrite Hw.
    unfold bind at 1. rewrite Hws. unfold ret.
    split; [done|]. split; [|split].
    + constructor; [|done]. eapply rewrapped_mono; [|done]. eauto.
    + exists (n1 ++ n2). rewrite Hn2, Hn1, app_assoc. split; [done|].
      by apply Forall_app.
    + congruence.
Qed.

Lemma filter_outputs_spec outputs σ :
  ∃ v σ', _filter_outputs_with_colo T outputs σ = (Ok v, σ')
          ∧ rewrap_rule σ' outputs v
          ∧ (∃ new, objs σ' = objs σ ++ new ∧ Forall fresh_layout new)
          ∧ allocs σ' = allocs σ.
Proof.
  destruct outputs as [| x | x | loc | vs | cls tag];
    try (destruct (wrap_if_tensor_spec (VSubTensor x) σ) as (w & σ' & H & ?);
         by exists w, σ');
    try (destruct (wrap_if_tensor_spec (VColo loc) σ) as (w & σ' & H & ?);
         by exists w, σ');
    try (destruct (wrap_if_tensor_spec (VOther cls tag) σ) as (w & σ' & H & ?);
         by exists w, σ').
  - exists VNone, σ. repeat split. exists []. by rewrite app_nil_r.
  - destruct (wrap_if_tensor_spec (VTensor x) σ) as (w & σ' & H & ?).
    by exists w, σ'.
  - destruct (for_each_wrap_spec vs σ) as (ws & σ' & Hws & Hr & Hnew & Ha).
    exists (VTuple ws), σ'. simpl. unfold bind, ret. rewrite Hws.
    split; [done|]. split; [|done]. eauto.
Qed.

Lemma fresh_layout_colo_of x : fresh_layout (colo_of x).
Proof. by repeat split. Qed.

Create HintDb colo.
#[local] Hint Resolve fresh_layout_colo_of lookup_new : colo.

Lemma wrap_result z σ :
  init_from_torch_tensor T z true false σ
    = (Ok (length (objs σ)), mkStore (objs σ ++ [colo_of z]) (allocs σ)).
Proof. done. Qed.

Lemma getitem_inv self key σ loc σ' :
  __getitem__ T self key σ = (Ok loc, σ') → ∃ z, objs σ' !! loc = Some (colo_of z).
Proof.
  unfold __getitem__, bind, lift_res.
  destruct (torch_tensor T self σ) as [[x|e] σ1]; [|done].
  destruct (getitem T x key) as [y|e]; [|done].
  rewrite wrap_result. intros [= <- <-]. exists y. apply lookup_new.
Qed.

Lemma add_inv self o σ loc σ' :
  __add__ T self o σ = (Ok loc, σ') → ∃ z, objs σ' !! loc = Some (colo_of z).
Proof.
  unfold __add__, bind, lift_res, raise. destruct o as [| y | y | o' | vs | cls tag]; try done.
  - destruct (torch_tensor T self σ) as [[x|e] σ1]; [|done].
    destruct (add T x y) as [z|e]; [|done].
    rewrite wrap_result. intros [= <- <-]. exists z. apply lookup_new.
  - destruct (torch_tensor T self σ) as [[x|e] σ1]; [|done].
    destruct (add T x y) as [z|e]; [|done].
    rewrite wrap_result. intros [= <- <-]. exists z. apply lookup_new.
  - destruct (torch_tensor T self σ) as [[x|e] σ1]; [|done].
    destruct (torch_tensor T o' σ1) as [[y|e] σ2]; [|done].
    destruct (add T x y) as [z|e]; [|done].
    rewrite wrap_result. intros [= <- <-]. exists z. apply lookup_new.
Qed.

Lemma truediv_unfold self o σ :
  __truediv__ T self o σ =
    match torch_tensor T self σ with
    | (Raise e, σ1) => (Raise e, σ1)
    | (Ok x, σ1) =>
        match o with
        | VColo o' =>
            match torch_tensor T o' σ1 with
            | (Raise e, σ2) => (Raise e, σ2)
            | (Ok y, σ2) =>
                match truediv T x (VTensor y) with
                | Raise e => (Raise e, σ2)
                | Ok z => (Ok (S (length (objs σ2))),
                           mkStore (objs σ2 ++ [colo_of z; colo_of z]) (allocs σ2))
                end
            end
        | _ =>
            match truediv T x o with
            | Raise e => (Raise e, σ1)
            | Ok z => (Ok (length (objs σ1)), mkStore (objs σ1 ++ [colo_of z]) (allocs σ1))
            end
        end
    end.
Proof.
  unfold __truediv__. unfold bind at 1.
  destruct (torch_tensor T self σ) as [[x|e] σ1]; [|done].
  destruct o as [| y | y | o' | vs | cls tag];
    try (unfold bind, lift_res; destruct (truediv T x _) as [z|e]; done).
  unfold bind at 1. destruct (torch_tensor T o' σ1) as [[y|e] σ2]; [|done].
  unfold bind at 1. unfold lift_res.
  destruct (truediv T x (VTensor y)) as [z|e]; [|done].
  unfold bind. rewrite !wrap_result. simpl.
  rewrite length_app, <- app_assoc. simpl. do 2 f_equal. lia.
Qed.

Lemma truediv_inv self o σ loc σ' :
  __truediv__ T self o σ = (Ok loc, σ') → ∃ z, objs σ' !! loc = Some (colo_of z).
Proof.
  rewrite truediv_unfold.
  destruct (torch_tensor T self σ) as [[x|e] σ1]; [|done].
  destruct o as [| y | y | o' | vs | cls tag];
    try (destruct (truediv T x _) as [z|e]; [|done];
         intros [= <- <-]; exists z; apply lookup_new).
  destruct (torch_tensor T o' σ1) as [[y|e] σ2]; [|done].
  destruct (truediv T x (VTensor y)) as [z|e]; [|done].
  intros [= <- <-]. exists z. simpl.
  rewrite (lookup_app_r (objs σ2)) by lia.
  by replace (S (length (objs σ2)) - length (objs σ2)) with 1 by lia.
Qed.

(** C10.  The object made by [init_from_torch_tensor], by indexing, by
    [+], by [/] and by the re-wrapping of a result is not sharded and
    carries the default layout spec, which declares no action, whatever
    the spec and the shard pattern of the tensor it was derived from;
    wrapping with the payload and re-wrapping always return. *)
Theorem derived_tensors_start_unsharded σ :
  (∀ x save is_model loc σ',
     init_from_torch_tensor T x save is_model σ = (Ok loc, σ') →
     ∃ c, objs σ' !! loc = Some c ∧ fresh_layout c)
  ∧ (∀ x is_model, ∃ loc σ' c,
       init_from_torch_tensor T x true is_model σ = (Ok loc, σ')
       ∧ objs σ' !! loc = Some c ∧ fresh_layout c)
  ∧ (∀ self key loc σ',
       __getitem__ T self key σ = (Ok loc, σ') →
       ∃ c, objs σ' !! loc = Some c ∧ fresh_layout c)
  ∧ (∀ self o loc σ',
       __add__ T self o σ = (Ok loc, σ') →
       ∃ c, objs σ' !! loc = Some c ∧ fresh_layout c)
  ∧ (∀ self o loc σ',
       __truediv__ T self o σ = (Ok loc, σ') →
       ∃ c, objs σ' !! loc = Some c ∧ fresh_layout c)
  ∧ (∀ outputs, ∃ v σ' new,
       _filter_outputs_with_colo T outputs σ = (Ok v, σ')
       ∧ objs σ' = objs σ ++ new
       ∧ Forall fresh_layout new).
Proof.
  split; [|split; [|split; [|split; [|split]]]].
  - intros x save is_model loc σ' H.
    destruct (init_from_torch_tensor_inv _ _ _ _ _ _ H) as (-> & c & Hc & Hf).
    exists c. split; [|done]. rewrite Hc. apply lookup_new.
  - intros x is_model. rewrite init_from_torch_tensor_payload.
    eexists _, _, _. split; [done|]. split; [apply lookup_new|]. by repeat split.
  - intros self key loc σ' H. destruct (getitem_inv _ _ _ _ _ H) as [z Hz].
    eauto with colo.
  - intros self o loc σ' H. destruct (add_inv _ _ _ _ _ H) as [z Hz].
    eauto with colo.
  - intros self o loc σ' H. destruct (truediv_inv _ _ _ _ _ H) as [z Hz].
    eauto with colo.
  - intros outputs.
    destruct (filter_outputs_spec outputs σ) as (v & σ' & H & _ & (new & ? & ?) & _).
    by exists v, σ', new.
Qed.

(** *** Unwrapping the arguments *)

Lemma keeps_buffers_refl σ : keeps_buffers σ σ.
Proof. by split. Qed.

Lemma keeps_buffers_trans σ1 σ2 σ3 :
  keeps_buffers σ1 σ2 → keeps_buffers σ2 σ3 → keeps_buffers σ1 σ3.
Proof.
  intros [Hl1 H1] [Hl2 H2]. split; [congruence|].
  intros l c Hc Hn. apply H2; [by apply H1|done].
Qed.

Lemma unwrapped_later σ σ' v w :
  keeps_buffers σ σ' → unwrapped σ v w → unwrapped σ' v w.
Proof.
  intros [Hlen Hk]. destruct v; simpl; try done.
  intros (x & c & -> & Hc & Hx).
  destruct (decide (numel x = 0)) as [Hz|Hnz].
  - destruct (lookup_lt_is_Some_2 (objs σ') loc) as [c' Hc'].
    { rewrite Hlen. by eapply lookup_lt_Some. }
    exists x, c'. by repeat split.
  - exists x, c. repeat split; [|done]. apply Hk; [done|]. by rewrite Hx.
Qed.

Lemma unwrap_if_colo_spec v σ w σ' :
  unwrap_if_colo T v σ = (Ok w, σ') → unwrapped σ' v w ∧ keeps_buffers σ σ'.
Proof.
  destruct v; simpl; try by (intros [= <- <-]; split; [done|apply keeps_buffers_refl]).
  unfold bind, ret. destruct (torch_tensor T loc σ) as [[x|e] σ1] eqn:Ht; [|done].
  intros [= <- <-]. destruct (torch_tensor_inv _ _ _ _ Ht) as (Hlen & Hk & Hx).
  destruct (Hx x eq_refl) as (c & Hc & Hcx). split; [|done].
  exists x, c. by repeat split.
Qed.

Lemma for_each_unwrap_spec args σ args' σ' :
  for_each (unwrap_if_colo T) args σ = (Ok args', σ') →
  Forall2 (unwrapped σ') args args' ∧ keeps_buffers σ σ'.
Proof.
  revert σ args'. induction args as [|v args IH]; intros σ args'; simpl.
  - intros [= <- <-]. split; [constructor|apply keeps_buffers_refl].
  - unfold bind at 1. destruct (unwrap_if_colo T v σ) as [[w|e] σ1] eqn:Hv; [|done].
    unfold bind at 1.
    destruct (for_each (unwrap_if_colo T) args σ1) as [[ws|e] σ2] eqn:Hvs; [|done].
    intros [= <- <-].
    destruct (unwrap_if_colo_spec _ _ _ _ Hv) as [Hu Hk1].
    destruct (IH _ _ Hvs) as [Hus Hk2]. split.
    + constructor; [by eapply unwrapped_later|done].
    + by eapply keeps_buffers_trans.
Qed.

Lemma for_each_unwrap_kw_spec kw σ kw' σ' :
  for_each (unwrap_kw T) kw σ = (Ok kw', σ') →
  Forall2 (kw_unwrapped σ') kw kw' ∧ keeps_buffers σ σ'.
Proof.
  revert σ kw'. induction kw as [|[k v] kw IH]; intros σ kw'; simpl.
  - intros [= <- <-]. split; [constructor|apply keeps_buffers_refl].
  - unfold bind at 1. unfold unwrap_kw at 1. unfold bind at 1. simpl.
    destruct (unwrap_if_colo T v σ) as [[w|e] σ1] eqn:Hv; [|done].
    unfold ret at 1. unfold bind at 1.
    destruct (for_each (unwrap_kw T) kw σ1) as [[ws|e] σ2] eqn:Hvs; [|done].
    intros [= <- <-].
    destruct (unwrap_if_colo_spec _ _ _ _ Hv) as [Hu Hk1].
    destruct (IH _ _ Hvs) as [Hus Hk2]. split.
    + constructor; [|done]. split; [done|]. by eapply unwrapped_later.
    + by eapply keeps_buffers_trans.
Qed.

Lemma unwrap_materialised v σ :
  materialised σ v → unwrap_if_colo T v σ = (Ok (native_of σ v), σ).
Proof.
  destruct v; simpl; try done. intros (c & Hc & Hn).
  unfold bind, ret. by rewrite (torch_tensor_materialised σ loc c), Hc.
Qed.

Lemma for_each_unwrap_materialised args σ :
  Forall (materialised σ) args →
  for_each (unwrap_if_colo T) args σ = (Ok (map (native_of σ) args), σ).
Proof.
  induction 1 as [|v args Hv _ IH]; simpl; [done|].
  unfold bind at 1. rewrite (unwrap_materialised v σ Hv).
  unfold bind at 1. by rewrite IH.
Qed.

Lemma for_each_unwrap_kw_materialised (kw : Kwargs) σ :
  Forall (materialised σ) (map snd kw) →
  for_each (unwrap_kw T) kw σ = (Ok (map (λ kv, (kv.1, native_of σ kv.2)) kw), σ).
Proof.
  induction kw as [|[k v] kw IH]; simpl; [done|].
  intros [Hv Hkw]%Forall_cons.
  unfold bind at 1. unfold unwrap_kw at 1. unfold bind at 1. simpl.
  rewrite (unwrap_materialised v σ Hv). unfold ret at 1.
  unfold bind at 1. by rewrite IH.
Qed.

(** C8.  For an operation with no handler in the registry, whenever the
    interceptor returns: the native operation was called on arguments and
    keyword arguments of the same length, order and keys, in which every
    wrapped tensor is replaced by a native tensor, the storage of that
    object, and everything else is passed as it is; the result is the
    re-wrapping of what the native operation returned: None stays None,
    a native tensor becomes a new wrapped tensor around it, any other
    single result is returned as it is, and a tuple is re-wrapped
    element by element in order.  When the wrapped arguments already
    hold their buffers and the native operation returns on their
    storages, the interceptor returns, and the store it re-wraps in is
    the one it was called in. *)
Theorem torch_function_unwraps_calls_rewraps
    (ops : gmap nat Handler) (func : Func) types args kwargs σ :
  ops !! (func : nat) = None →
  (∀ r σ', __torch_function__ T ops func types args kwargs σ = (Ok r, σ') →
     ∃ args' kw' outputs σ1,
       Forall2 (unwrapped σ1) args args'
       ∧ Forall2 (kw_unwrapped σ1) (default [] kwargs) kw'
       ∧ call T func args' kw' = Ok outputs
       ∧ _filter_outputs_with_colo T outputs σ1 = (Ok r, σ')
       ∧ rewrap_rule σ' outputs r)
  ∧ (Forall (materialised σ) args →
     Forall (materialised σ) (map snd (default [] kwargs)) →
     ∀ outputs,
       call T func (map (native_of σ) args)
            (map (λ kv, (kv.1, native_of σ kv.2)) (default [] kwargs)) = Ok outputs →
       ∃ r σ', __torch_function__ T ops func types args kwargs σ = (Ok r, σ')
               ∧ _filter_outputs_with_colo T outputs σ = (Ok r, σ')
               ∧ rewrap_rule σ' outputs r).
Proof.
  intros Hops. set (kw := default [] kwargs).
  unfold __torch_function__. rewrite Hops. fold kw. split.
  - intros r σ'. unfold bind at 1.
    destruct (for_each (unwrap_if_colo T) args σ) as [[args'|e] σa] eqn:Ha; [|done].
    unfold bind at 1.
    destruct (for_each (unwrap_kw T) kw σa) as [[kw'|e] σ1] eqn:Hk; [|done].
    unfold bind at 1. unfold lift_res.
    destruct (call T func args' kw') as [outputs|e] eqn:Hc; [|done].
    intros Hf.
    destruct (for_each_unwrap_spec _ _ _ _ Ha) as [Hua Hka].
    destruct (for_each_unwrap_kw_spec _ _ _ _ Hk) as [Huk Hkk].
    exists args', kw', outputs, σ1. repeat split; try done.
    + eapply Forall2_impl; [exact Hua|]. intros v w Hu. by eapply unwrapped_later.
    + destruct (filter_outputs_spec outputs σ1) as (v & σ2 & Hv & Hr & _).
      rewrite Hf in Hv. by simplify_eq.
  - intros Hma Hmk outputs Hc.
    unfold bind at 1. rewrite (for_each_unwrap_materialised args σ Hma).
    unfold bind at 1. rewrite (for_each_unwrap_kw_materialised kw σ Hmk).
    unfold bind at 1. unfold lift_res. rewrite Hc.
    destruct (filter_outputs_spec outputs σ) as (v & σ2 & Hv & Hr & _).
    by exists v, σ2.
Qed.

End Interception.

(** ** The store on the running examples *)

Lemma torch_tensor_allocates_once_witness :
  torch_tensor ex_torch 0 ex_lazy_store
    = (Ok ex_zero_matrix,
       mkStore (alter (with_torch_tensor ex_zero_matrix) 0 (objs ex_lazy_store)) 1)
  ∧ alter (with_torch_tensor ex_zero_matrix) 0 (objs ex_lazy_store) !! 0
    = Some (with_torch_tensor ex_zero_matrix (ex_lazy [2; 2]))
  ∧ (numel ex_zero_matrix ≠ 0 →
     torch_tensor ex_torch 0
       (mkStore (alter (with_torch_tensor ex_zero_matrix) 0 (objs ex_lazy_store)) 1)
       = (Ok ex_zero_matrix,
          mkStore (alter (with_torch_tensor ex_zero_matrix) 0 (objs ex_lazy_store)) 1)).
Proof.
  apply (torch_tensor_allocates_once ex_torch ex_lazy_store 0 (ex_lazy [2; 2])
           ex_zero_matrix); reflexivity.
Defined.

(** C9, as stated, fails when the declared size has no element.  A tensor
    released with [del_torch_tensor()] has the logical size [0]; its
    storage is read twice, and each read allocates a buffer. *)
Lemma torch_tensor_zero_size_reallocates :
  (_size <$> objs (del_torch_tensor ex_torch 0 false ex_store).2 !! 0) = Some [0]
  ∧ (numel ∘ _torch_tensor <$> objs (del_torch_tensor ex_torch 0 false ex_store).2 !! 0)
    = Some 0
  ∧ allocs (del_torch_tensor ex_torch 0 false ex_store).2 = 1
  ∧ is_ok (torch_tensor ex_torch 0 (del_torch_tensor ex_torch 0 false ex_store).2).1 = true
  ∧ allocs (torch_tensor ex_torch 0 (del_torch_tensor ex_torch 0 false ex_store).2).2 = 2
  ∧ is_ok (torch_tensor ex_torch 0
             (torch_tensor ex_torch 0 (del_torch_tensor ex_torch 0 false ex_store).2).2).1
    = true
  ∧ allocs (torch_tensor ex_torch 0
              (torch_tensor ex_torch 0 (del_torch_tensor ex_torch 0 false ex_store).2).2).2
    = 3.
Proof. vm_compute. repeat split; done. Qed.

Lemma torch_function_unwraps_calls_rewraps_witness :
  ex_ops !! 0 = None
  ∧ ∃ r σ', __torch_function__ ex_torch ex_ops ex_neg [] [VColo 0] None ex_store
              = (Ok r, σ')
            ∧ _filter_outputs_with_colo ex_torch (VTensor ex_negated) ex_store = (Ok r, σ')
            ∧ rewrap_rule σ' (VTensor ex_negated) r.
Proof.
  assert (H : ex_ops !! 0 = None) by reflexivity.
  split; [exact H|].
  apply (proj2 (torch_function_unwraps_calls_rewraps ex_torch ex_ops ex_neg []
                  [VColo 0] None ex_store H)).
  - repeat constructor. exists (colo_of ex_vector). split; [reflexivity | vm_compute; lia].
  - constructor.
  - reflexivity.
Defined.

(** Negation through the interceptor: a new wrapped tensor holds the
    negated values, the argument keeps its own. *)
Example torch_function_negates :
  __torch_function__ ex_torch ex_ops ex_neg [] [VColo 0] None ex_store
    = (Ok (VColo 1), mkStore [colo_of ex_vector; colo_of ex_negated] 0).
Proof. reflexivity. Qed.

(** A registered operation bypasses the native one: what the handler
    returns is returned as it is. *)
Example torch_function_custom :
  __torch_function__ ex_torch ex_ops ex_custom [] [VColo 0] None ex_store
    = (Ok (VOther "int" 42), ex_store).
Proof. reflexivity. Qed.

(** Two wrapped vectors are added into a new one; the same object may be
    both operands. *)
Example add_wrapped :
  __add__ ex_torch 0 (VColo 0) ex_store
    = (Ok 1, mkStore [colo_of ex_vector;
                      colo_of (dense [2] [2; -4]%Z int64 0 false false)] 0)
  ∧ (__add__ ex_torch 0 (VOther "int" 7) ex_store).1
    = Raise (TypeError "<class 'int'> is not supported in ColoTensor __add__").
Proof. split; reflexivity. Qed.

(** ** What shard and gather change, and what they leave alone *)

Lemma product_insert (s : list nat) d e c :
  s !! d = Some e →
  product (<[d := c]> s) = product (take d s) * (c * product (drop (S d) s)).
Proof.
  intros H. pose proof (lookup_lt_Some _ _ _ H) as Hlt.
  rewrite insert_take_drop by done. by rewrite product_app.
Qed.

Lemma product_zero (s : list nat) : product s = 0 ↔ 0 ∈ s.
Proof.
  induction s as [|a s IH]; simpl.
  - split; [done|]. by intros ?%elem_of_nil.
  - rewrite elem_of_cons. split.
    + intros [->|H]%Nat.eq_mul_0; [by left|right; by apply IH].
    + intros [<-|H]; [done|]. apply IH in H. rewrite H. lia.
Qed.

Lemma narrow_inv (x : Tensor) dim start len y :
  narrow x dim start len = Ok y →
  ∃ d, norm_dim dim (length (t_size x)) = Some d
       ∧ start + len ≤ default 0 (t_size x !! d)
       ∧ t_size y = <[d := len]> (t_size x)
       ∧ t_data y = narrow_rows (product (take d (t_size x)))
                      (default 0 (t_size x !! d) * product (drop (S d) (t_size x)))
                      (start * product (drop (S d) (t_size x)))
                      (len * product (drop (S d) (t_size x))) (t_data x).
Proof.
  unfold narrow. destruct (norm_dim _ _) as [d|]; [|by destruct (_ =? _)].
  simpl. case_bool_decide; [done|]. case_bool_decide; [|done].
  intros [= <-]. by exists d.
Qed.

Section ShardInvariants.

Context (env : Env).

Lemma _shard_1d_inv a dim t t' :
  _shard_1d env a dim t = (Ok (), t') →
  ∃ e c loc,
    tuple_getitem (_size t) dim = Ok e
    ∧ divide e (get_world_size env (parallel_mode a)) = Ok c
    ∧ narrow (_torch_tensor t) dim (get_local_rank env (parallel_mode a) * c) c = Ok loc
    ∧ flag_allowed (_requires_grad t) (t_dtype loc)
    ∧ t' = with_size (t_size loc)
             (with_torch_tensor
                (with_requires_grad (_requires_grad t) (contiguous (detach loc))) t).
Proof.
  rewrite _shard_1d_unfold.
  destruct (tuple_getitem _ _) as [e|] eqn:He; [|done].
  destruct (divide _ _) as [c|] eqn:Hc; [|done].
  destruct (narrow _ _ _ _) as [loc|] eqn:Hn; [|done].
  assert (Hflag : ∀ x, set_requires_grad (contiguous (detach loc)) (_requires_grad t) = Ok x →
                       flag_allowed (_requires_grad t) (t_dtype loc)).
  { intros x Hx. destruct (_requires_grad t); [|by left].
    destruct (differentiable (t_dtype loc)) eqn:Hd; [by right|].
    rewrite set_requires_grad_refused in Hx; [done|].
    by destruct (contiguous_values (detach loc)) as (_ & _ & -> & _). }
  destruct (set_requires_grad _ _) as [x|] eqn:Hx; [|done].
  specialize (Hflag x eq_refl). rewrite set_requires_grad_slice in Hx by done.
  injection Hx as <-. intros [= <-]. exists e, c, loc.
  repeat split; try done. cbn [t_size with_requires_grad].
  by destruct (contiguous_values (detach loc)) as (-> & _).
Qed.

Lemma shard_no_spec t :
  _shard_spec t = None →
  shard env t =
    (Raise (AssertionError "You should call set_spec() before _shard() ColoTensor."), t).
Proof. intros H. unfold shard. meth_unfold. by rewrite H. Qed.

Lemma implicit_gather_unsharded t :
  _shard_pattern t = NA → implicit_gather env t = (Ok (), t).
Proof.
  intros H. unfold implicit_gather, is_gathered. by rewrite bool_decide_eq_true_2.
Qed.

Lemma implicit_gather_sharded t :
  _shard_pattern t ≠ NA → implicit_gather env t = gather env t.
Proof.
  intros H. unfold implicit_gather, is_gathered. by rewrite bool_decide_eq_false_2.
Qed.

Lemma gather_declaration t r t' : gather env t = (r, t') → same_declaration t t'.
Proof.
  destruct r as [[]|e]; intros H.
  - destruct (gather_inv env _ _ H) as (Hty & Hpat & spec & dp & Hs & Hdp).
    rewrite (gather_ok env t spec dp) in H by done. simpl in H.
    injection H as <-. by repeat split.
  - rewrite (gather_raise env _ _ _ H). by repeat split.
Qed.

Lemma _shard_1d_declaration a dim t r t' :
  _shard_1d env a dim t = (r, t') → same_declaration t t'.
Proof.
  destruct r as [[]|e]; intros H.
  - destruct (_shard_1d_inv _ _ _ _ H) as (e & c & loc & _ & _ & _ & _ & ->).
    by repeat split.
  - destruct (_shard_1d_raise env _ _ _ _ _ H) as [->|(_ & _ & c & loc & _ & _ & ->)];
      by repeat split.
Qed.

Lemma same_declaration_trans t1 t2 t3 :
  same_declaration t1 t2 → same_declaration t2 t3 → same_declaration t1 t3.
Proof. unfold same_declaration. intros ? ?. intuition congruence. Qed.

Lemma implicit_gather_declaration t r t' :
  implicit_gather env t = (r, t') → same_declaration t t'.
Proof.
  unfold implicit_gather. destruct (is_gathered t).
  - intros [= <- <-]. by repeat split.
  - apply gather_declaration.
Qed.

Lemma shard_declaration t r t' : shard env t = (r, t') → same_declaration t t'.
Proof.
  destruct (_shard_spec t) as [spec|] eqn:Hspec.
  - rewrite (shard_unfold env t spec Hspec).
    destruct (implicit_gather env t) as [[[]|e] t1] eqn:Hg;
      pose proof (implicit_gather_declaration _ _ _ Hg) as H1;
      [|by intros [= <- <-]].
    destruct (parallel_action_list spec) as [|a [|b l]]; try by intros [= <- <-].
    destruct (dispatch_table _) as [[dim pat]|]; [|by intros [= <- <-]].
    unfold bind, set_shard_pattern, assign.
    destruct (_shard_1d env a dim t1) as [[[]|e] t2] eqn:Hs;
      pose proof (_shard_1d_declaration _ _ _ _ _ Hs) as H2;
      intros [= <- <-]; [|by eapply same_declaration_trans].
    eapply same_declaration_trans; [exact H1|].
    eapply same_declaration_trans; [exact H2|]. by repeat split.
  - rewrite (shard_no_spec t Hspec). intros [= <- <-]. by repeat split.
Qed.

(** X1.  [gather], [_shard_1d] and [shard] write the storage, the logical
    size and the shard pattern only: whether they return or raise, the
    dtype, the requires-grad flag, the pinning, the device, the layout
    spec and the category of the tensor are the ones it had. *)
Theorem shard_gather_keep_declaration t :
  (∀ r t', gather env t = (r, t') → same_declaration t t')
  ∧ (∀ a dim r t', _shard_1d env a dim t = (r, t') → same_declaration t t')
  ∧ (∀ r t', shard env t = (r, t') → same_declaration t t')
  ∧ (∀ pat r t', set_shard_pattern pat t = (r, t') → same_declaration t t').
Proof.
  split; [apply gather_declaration|].
  split; [intros a dim; apply _shard_1d_declaration|].
  split; [apply shard_declaration|].
  intros pat r t' [= <- <-]. by repeat split.
Qed.

(** X2.  [set_spec] stores the spec before it shards, and nothing takes it
    back: in every outcome, a failed sharding included, the tensor is
    left with the new spec.  With [shard=False] the call returns and
    changes nothing else. *)
Theorem set_spec_installs_spec spec do_shard t r t' :
  set_spec env spec do_shard t = (r, t') →
  _shard_spec t' = spec
  ∧ (do_shard = false → r = Ok () ∧ t' = with_shard_spec spec t).
Proof.
  unfold set_spec, bind, assign, ret. destruct do_shard.
  - intros H. split; [|done].
    by destruct (shard_declaration _ _ _ H) as (_ & _ & _ & _ & -> & _).
  - intros [= <- <-]. by split.
Qed.

Lemma shard_unsharded_raise t e t' :
  _shard_pattern t = NA →
  flag_allowed (_requires_grad t) (t_dtype (_torch_tensor t)) →
  shard env t = (Raise e, t') → t' = t.
Proof.
  intros Hna Hflag. destruct (_shard_spec t) as [spec|] eqn:Hspec.
  - rewrite (shard_unfold env t spec Hspec), (implicit_gather_unsharded t Hna).
    destruct (parallel_action_list spec) as [|a [|b l]]; try done.
    destruct (dispatch_table _) as [[dim pat]|]; [|by intros [= _ <-]].
    unfold bind, set_shard_pattern, assign.
    destruct (_shard_1d env a dim t) as [[[]|e1] t2] eqn:Hs; [done|].
    intros [= _ <-]. by eapply _shard_1d_raise_allowed.
  - rewrite (shard_no_spec t Hspec). by intros [= _ <-].
Qed.

(** X3.  What a failing call leaves behind.  A failing [gather] leaves
    every attribute of the tensor as it was.  A failing [_shard_1d]
    does so too, with one exception: when the tensor's requires-grad flag
    is on and the storage is not of a floating point or complex dtype,
    the flag is refused with a RuntimeError after the storage has been
    replaced by the detached slice, and before the logical size is
    updated.  When the flag can be set, a failing [_shard_1d], and a
    failing [shard] of a tensor that is not sharded, change nothing. *)
Theorem failed_shard_gather_state t :
  (∀ e t', gather env t = (Raise e, t') → t' = t)
  ∧ (∀ a dim e t', _shard_1d env a dim t = (Raise e, t') →
       t' = t
       ∨ (e = RuntimeError ∧ _requires_grad t = true
          ∧ differentiable (t_dtype (_torch_tensor t)) = false
          ∧ ∃ c loc,
              narrow (_torch_tensor t) dim (get_local_rank env (parallel_mode a) * c) c
                = Ok loc
              ∧ t' = with_torch_tensor (contiguous (detach loc)) t
              ∧ _size t' = _size t))
  ∧ (flag_allowed (_requires_grad t) (t_dtype (_torch_tensor t)) →
     (∀ a dim e t', _shard_1d env a dim t = (Raise e, t') → t' = t)
     ∧ (_shard_pattern t = NA → ∀ e t', shard env t = (Raise e, t') → t' = t)).
Proof.
  split; [intros e t'; apply gather_raise|]. split.
  - intros a dim e t' H.
    destruct (_shard_1d_raise env _ _ _ _ _ H) as [->|(-> & Hrg & c & loc & Hn & Hd & ->)];
      [by left|right].
    rewrite (narrow_dtype _ _ _ _ _ Hn) in Hd. repeat split; try done.
    by exists c, loc.
  - intros Hflag. split.
    + intros a dim e t'. by apply _shard_1d_raise_allowed.
    + intros Hna e t'. by apply shard_unsharded_raise.
Qed.

(** X4.  [shard] is not all-or-nothing on a sharded tensor.  For a sharded
    activation whose spec has the DataParallel action as its single
    action, the implicit gather succeeds, the dispatch then raises
    NotImplementedError, and the tensor is left gathered: its storage is
    what the collective returned and its pattern is NA. *)
Theorem reshard_dp_raises_after_gather t a :
  _type t = NONMODEL →
  _shard_pattern t ≠ NA →
  _shard_spec t = Some (mkSpec [a]) →
  compute_pattern a = DP →
  ∃ t1, gather env t = (Ok (), t1)
        ∧ shard env t = (Raise NotImplementedError, t1)
        ∧ _shard_pattern t1 = NA
        ∧ _torch_tensor t1 =
            gather_forward_split_backward env (_torch_tensor t) (parallel_mode a)
              (gather_dim (_shard_pattern t)).
Proof.
  intros Hty Hpat Hspec Hdp.
  assert (Ha : get_action_by_compute_pattern (mkSpec [a]) DP = Some a).
  { rewrite <- Hdp. apply get_action_single. }
  pose proof (gather_ok env t _ a Hty Hpat Hspec Ha) as Hg. simpl in Hg.
  eexists. split; [exact Hg|].
  rewrite (shard_unfold env t _ Hspec), (implicit_gather_sharded t Hpat), Hg.
  simpl. by rewrite Hdp.
Qed.

(** X5.  [is_gathered] follows the calls.  After a [gather] that returns
    the tensor is gathered.  After a [shard] that returns under a spec
    with a single action it is sharded, and the storage carries the
    tensor's requires-grad flag; under a spec with another number of
    actions it is gathered.  In all three cases the logical size is the
    shape of the storage. *)
Theorem is_gathered_after_shard_and_gather t :
  (∀ t', gather env t = (Ok (), t') →
     is_gathered t' = true ∧ _size t' = t_size (_torch_tensor t'))
  ∧ (∀ a t', _shard_spec t = Some (mkSpec [a]) → shard env t = (Ok (), t') →
       is_gathered t' = false
       ∧ _size t' = t_size (_torch_tensor t')
       ∧ t_requires_grad (_torch_tensor t') = _requires_grad t')
  ∧ (∀ spec t', _shard_spec t = Some spec → num_action spec ≠ 1 →
       shard env t = (Ok (), t') →
       is_gathered t' = true
       ∧ (_shard_pattern t ≠ NA → _size t' = t_size (_torch_tensor t'))).
Proof.
  assert (Hgather : ∀ t', gather env t = (Ok (), t') →
            is_gathered t' = true ∧ _size t' = t_size (_torch_tensor t')).
  { intros t' H.
    destruct (gather_inv env _ _ H) as (Hty & Hpat & spec & dp & Hs & Hdp).
    rewrite (gather_ok env t spec dp) in H by done. simpl in H.
    by injection H as <-. }
  split; [exact Hgather|]. split.
  - intros a t' Hspec. rewrite (shard_unfold env t _ Hspec). simpl.
    destruct (implicit_gather env t) as [[[]|e] t1] eqn:Hg; [|done].
    destruct (dispatch_table (compute_pattern a)) as [[dim pat]|] eqn:Hd; [|done].
    unfold bind, set_shard_pattern, assign.
    destruct (_shard_1d env a dim t1) as [[[]|e] t2] eqn:Hs; [|done].
    intros [= <-].
    destruct (_shard_1d_inv _ _ _ _ Hs) as (e & c & loc & _ & _ & _ & _ & ->).
    destruct (dispatch_table_gather_dim _ _ _ Hd) as [Hpat _].
    unfold is_gathered. simpl. rewrite bool_decide_eq_false_2 by done.
    by destruct (contiguous_values (detach loc)) as (-> & _).
  - intros spec t' Hspec Hn. rewrite (shard_unfold env t _ Hspec).
    destruct (implicit_gather env t) as [[[]|e] t1] eqn:Hg; [|done].
    assert (Hlist : ∀ a, parallel_action_list spec ≠ [a]).
    { intros a Ha. apply Hn. unfold num_action. by rewrite Ha. }
    destruct (parallel_action_list spec) as [|a [|b l]]; [|by destruct (Hlist a)|];
      intros [= <-]; unfold implicit_gather in Hg.
    all: destruct (is_gathered t) eqn:Hig;
      [ injection Hg as <-; split; [done|]; intros Hpat;
        unfold is_gathered in Hig; by case_bool_decide
      | destruct (Hgather _ Hg) as [? ?]; by split ].
Qed.

End ShardInvariants.

(** ** How much of the tensor a rank keeps *)

Section ShardGeometry.

Context (env : Env).

Lemma _shard_1d_shape a dim t t' :
  t_size (_torch_tensor t) = _size t →
  _shard_1d env a dim t = (Ok (), t') →
  ∃ d e c,
    norm_dim dim (length (_size t)) = Some d
    ∧ _size t !! d = Some e
    ∧ e = get_world_size env (parallel_mode a) * c
    ∧ get_local_rank env (parallel_mode a) * c + c ≤ e
    ∧ _size t' = <[d := c]> (_size t)
    ∧ t_size (_torch_tensor t') = <[d := c]> (_size t)
    ∧ t_data (_torch_tensor t') =
        narrow_rows (product (take d (_size t)))
          (e * product (drop (S d) (_size t)))
          (get_local_rank env (parallel_mode a) * c * product (drop (S d) (_size t)))
          (c * product (drop (S d) (_size t))) (t_data (_torch_tensor t)).
Proof.
  intros Hshape H.
  destruct (_shard_1d_inv env _ _ _ _ H) as (e & c & loc & He & Hc & Hn & _ & ->).
  destruct (tuple_getitem_inv _ _ _ He) as (d & Hd & Hlk).
  destruct (divide_exact _ _ _ Hc) as [Hex _].
  destruct (narrow_inv _ _ _ _ _ Hn) as (d' & Hd' & Hle & Hsz & Hdt).
  rewrite Hshape, Hd in Hd'. injection Hd' as <-.
  rewrite Hshape in Hle, Hdt, Hsz. rewrite Hlk in Hle, Hdt. simpl in Hle, Hdt.
  exists d, e, c. cbn [_size _torch_tensor with_size with_torch_tensor].
  destruct (slice_values loc (_requires_grad t)) as [-> ->].
  by rewrite Hsz.
Qed.

Lemma fits_int64_product (s : list nat) :
  s ≠ [] → fits_int64 s → numpy_product s = np_int64 (Z.of_nat (product s)).
Proof.
  intros Hne [Hall Hp]. unfold numpy_product.
  destruct s as [|n s]; [done|].
  assert (Hb : ∀ l, Forall (λ n, (Z.of_nat n < 2 ^ 63)%Z) l →
                    forallb (λ n, Z.of_nat n <? 2 ^ 63)%Z l = true).
  { induction 1 as [|m l Hm _ IH]; simpl; [done|].
    rewrite IH, andb_true_r. by apply Z.ltb_lt. }
  rewrite (Hb _ Hall). f_equal. unfold wrap_int64.
  rewrite Z.mod_small; lia.
Qed.

(** X6.  When [_shard_1d] returns on a tensor whose storage has the
    logical shape, the rank keeps one part in world-size of the elements:
    the product of the extents times the world size is the former
    product, and [dim()] is what it was.  If the storage held as many
    elements as its shape says, it still does.  When the extents and
    their product are below 2^63, numpy's product does not wrap, and
    [numel()] is that product before and after. *)
Theorem shard_1d_divides_numel a dim t t' :
  t_size (_torch_tensor t) = _size t →
  _shard_1d env a dim t = (Ok (), t') →
  product (_size t') * get_world_size env (parallel_mode a) = product (_size t)
  ∧ Colo.dim t' = Colo.dim t
  ∧ numel (_torch_tensor t') = product (_size t')
  ∧ (length (t_data (_torch_tensor t)) = numel (_torch_tensor t) →
     length (t_data (_torch_tensor t')) = numel (_torch_tensor t'))
  ∧ (fits_int64 (_size t) →
     Colo.numel t = np_int64 (Z.of_nat (product (_size t)))
     ∧ Colo.numel t' = np_int64 (Z.of_nat (product (_size t')))).
Proof.
  intros Hshape H.
  destruct (_shard_1d_shape a dim t t' Hshape H)
    as (d & e & c & Hd & Hlk & He & Hle & Hsz & Hsz' & Hdt).
  assert (Hprod : product (_size t') * get_world_size env (parallel_mode a)
                  = product (_size t)).
  { rewrite Hsz, (product_insert _ _ _ c Hlk), (product_split _ _ _ Hlk).
    subst e. lia. }
  unfold Colo.numel, Colo.dim, numel. rewrite Hsz'. rewrite <- Hsz.
  split; [done|]. split; [by rewrite Hsz, length_insert|]. split; [done|]. split.
  - intros Hwf. rewrite Hdt, narrow_rows_length; [|rewrite Hwf|nia].
    + by rewrite Hsz, (product_insert _ _ _ c Hlk).
    + unfold numel. rewrite Hshape. by rewrite (product_split _ _ _ Hlk).
  - intros [Hall Hp].
    assert (Hne : _size t ≠ []) by (intros Hnil; by rewrite Hnil in Hlk).
    split; [by apply fits_int64_product|].
    apply fits_int64_product.
    + rewrite Hsz. intros Hnil%(f_equal length). rewrite length_insert in Hnil.
      by destruct (_size t).
    + assert (Hws : 0 < get_world_size env (parallel_mode a)).
      { destruct (_shard_1d_inv env _ _ _ _ H) as (e' & c' & _ & _ & Hc' & _).
        by destruct (divide_exact _ _ _ Hc'). }
      assert (Hce : c ≤ e) by nia.
      assert (Hpp : product (_size t') ≤ product (_size t)) by nia.
      split; [|lia].
      rewrite Hsz. apply Forall_insert; [done|].
      pose proof (proj1 (Forall_lookup _ _) Hall _ _ Hlk). simpl in *. lia.
Qed.

(** X7.  [shard] narrows the storage as it is and never allocates it.  On
    a tensor that is not sharded, under a single action of a recognised
    pattern: with an empty size tuple [shard] raises IndexError; with a
    storage that is still the empty placeholder of shape [(0,)], and a
    positive extent that the world size divides, [narrow] raises, a
    RuntimeError on rank 0, where the slice ends beyond the placeholder,
    and an IndexError on the other ranks, where it starts beyond it.  The
    tensor is left as it was. *)
Theorem shard_needs_sized_storage t a dim pat :
  _shard_pattern t = NA →
  _shard_spec t = Some (mkSpec [a]) →
  dispatch_table (compute_pattern a) = Some (dim, pat) →
  (_size t = [] → shard env t = (Raise IndexError, t))
  ∧ (∀ e, t_size (_torch_tensor t) = [0] →
       tuple_getitem (_size t) dim = Ok e →
       0 < e → 0 < get_world_size env (parallel_mode a) →
       e mod get_world_size env (parallel_mode a) = 0 →
       shard env t =
         (Raise (if get_local_rank env (parallel_mode a) =? 0
                 then RuntimeError else IndexError), t)).
Proof.
  intros Hna Hspec Hd.
  rewrite (shard_unfold env t _ Hspec), (implicit_gather_unsharded env t Hna).
  simpl. rewrite Hd. split.
  - intros Hsz. unfold bind. rewrite _shard_1d_unfold, Hsz.
    unfold tuple_getitem, norm_dim. simpl.
    by destruct (dim <? 0)%Z; destruct (_ && _).
  - intros e Hst He Hpos Hws Hmod.
    assert (Hdiv : divide e (get_world_size env (parallel_mode a))
                   = Ok (e / get_world_size env (parallel_mode a))) by by apply divide_ok.
    destruct (divide_exact _ _ _ Hdiv) as [Hex _].
    unfold bind. rewrite _shard_1d_unfold, He, Hdiv.
    assert (Hdim : norm_dim dim 1 = Some 0).
    { destruct (compute_pattern a); simpl in Hd; by simplify_eq. }
    unfold narrow. rewrite Hst. simpl. rewrite Hdim. simpl.
    destruct (Nat.eqb_spec (get_local_rank env (parallel_mode a)) 0) as [->|Hr].
    + rewrite bool_decide_eq_false_2 by lia.
      rewrite bool_decide_eq_false_2; [done|]. nia.
    + rewrite bool_decide_eq_true_2; [done|]. nia.
Qed.

End ShardGeometry.

(** X8.  Sharding loses and repeats nothing.  Let every rank of a world
    of [ws] ranks run [_shard_1d] along [dim] on the same tensor, whose
    storage has the logical shape and holds its elements, with [ws]
    dividing the extent along [dim], and whose requires-grad flag is off
    unless the storage is of a floating point or complex dtype.  Every
    call returns, and the storages the ranks are left with, concatenated
    along [dim] in rank order, have the shape and the elements of the
    original storage. *)
Theorem shards_of_all_ranks_concatenate (envs : nat → Env) a dim t e ws :
  (∀ r, r < ws → get_world_size (envs r) (parallel_mode a) = ws
                 ∧ get_local_rank (envs r) (parallel_mode a) = r) →
  t_size (_torch_tensor t) = _size t →
  length (t_data (_torch_tensor t)) = numel (_torch_tensor t) →
  flag_allowed (_requires_grad t) (t_dtype (_torch_tensor t)) →
  tuple_getitem (_size t) dim = Ok e →
  0 < ws → e mod ws = 0 →
  (∀ r, r < ws → (_shard_1d (envs r) a dim t).1 = Ok ())
  ∧ ∃ y, cat (map (λ r, _torch_tensor (_shard_1d (envs r) a dim t).2) (seq 0 ws)) dim = Ok y
         ∧ t_size y = t_size (_torch_tensor t)
         ∧ t_data y = t_data (_torch_tensor t).
Proof.
  intros Henv Hshape Hwf Hflag He Hws Hmod.
  destruct (tuple_getitem_inv _ _ _ He) as (d & Hd & Hlk).
  assert (Hdiv : divide e ws = Ok (e / ws)) by by apply divide_ok.
  destruct (divide_exact _ _ _ Hdiv) as [Hex _].
  assert (Hrun : ∀ r, r < ws →
            _shard_1d (envs r) a dim t =
              (Ok (), with_size
                        (t_size (local_shard (_torch_tensor t) dim (e / ws) (_requires_grad t) r))
                        (with_torch_tensor
                           (local_shard (_torch_tensor t) dim (e / ws) (_requires_grad t) r) t))).
  { intros r Hr. destruct (Henv r Hr) as [Hw Hk].
    assert (Hn := narrow_ok (_torch_tensor t) dim d e (r * (e / ws)) (e / ws)).
    rewrite Hshape in Hn. specialize (Hn Hd Hlk ltac:(nia)).
    pose proof (λ loc, _shard_1d_ok (envs r) a dim t e (e / ws) loc He) as Hok.
    rewrite Hw, Hk in Hok. rewrite (Hok _ Hdiv Hn Hflag).
    rewrite (local_shard_ok _ _ _ _ _ _ Hn Hflag).
    by rewrite (proj1 (slice_values _ _)). }
  split; [intros r Hr; by rewrite (Hrun r Hr)|].
  rewrite (map_ext_in _ (local_shard (_torch_tensor t) dim (e / ws) (_requires_grad t))).
  - apply (cat_local_shards _ dim d ws (e / ws)); [done|by rewrite Hshape| |done|done].
    rewrite Hshape, Hlk. f_equal. lia.
  - intros r Hr%in_seq. rewrite (Hrun r) by lia. done.
Qed.

Lemma norm_dim_spec dim n :
  match norm_dim dim n with
  | Some d =>
      (- Z.of_nat n ≤ dim < Z.of_nat n)%Z ∧ d < n
      ∧ Z.of_nat d = (if (dim <? 0)%Z then dim + Z.of_nat n else dim)%Z
  | None => ¬ (- Z.of_nat n ≤ dim < Z.of_nat n)%Z
  end.
Proof.
  unfold norm_dim.
  destruct (Z.ltb_spec dim 0);
    match goal with |- context [(0 <=? ?d)%Z] => destruct (Z.leb_spec 0 d) end;
    match goal with |- context [(?d <? Z.of_nat n)%Z] => destruct (Z.ltb_spec d (Z.of_nat n)) end;
    simpl; lia.
Qed.

(** X9.  The shape queries read the logical size.  [size()] is the shape;
    [size(dim)] returns exactly for [-dim() <= dim < dim()] and raises
    IndexError otherwise; a negative [dim] in that range counts from the
    end.  [numel()] is numpy's product of the extents: the float 1.0 for
    an empty size tuple; and, for a size tuple that is not empty and
    whose extents and their product are below 2^63, the exact product as
    an int64, which is zero exactly when some extent is zero. *)
Theorem size_index_bounds (c : ColoTensor) (dim : Z) :
  Colo.size c None = Ok (inl (_size c))
  ∧ (((- Z.of_nat (Colo.dim c) ≤ dim < Z.of_nat (Colo.dim c))%Z →
      ∃ e, Colo.size c (Some dim) = Ok (inr e))
     ∧ (¬ (- Z.of_nat (Colo.dim c) ≤ dim < Z.of_nat (Colo.dim c))%Z →
        Colo.size c (Some dim) = Raise IndexError))
  ∧ ((- Z.of_nat (Colo.dim c) ≤ dim < 0)%Z →
     Colo.size c (Some dim) = Colo.size c (Some (dim + Z.of_nat (Colo.dim c))%Z))
  ∧ (_size c = [] → Colo.numel c = np_float64 1)
  ∧ (_size c ≠ [] → fits_int64 (_size c) →
     Colo.numel c = np_int64 (Z.of_nat (product (_size c)))
     ∧ (Colo.numel c = np_int64 0 ↔
        ∃ d, (0 ≤ d < Z.of_nat (Colo.dim c))%Z ∧ Colo.size c (Some d) = Ok (inr 0))).
Proof.
  split; [done|].
  split; [|split; [|split; [by unfold Colo.numel; intros ->|]]];
    unfold Colo.size, Colo.dim, Colo.numel, Colo.shape, tuple_getitem;
    set (s := _size c).
  - split.
    + intros Hr. pose proof (norm_dim_spec dim (length s)) as H.
      destruct (norm_dim dim (length s)) as [d|]; [|done].
      destruct H as (_ & Hd & _).
      destruct (lookup_lt_is_Some_2 s d Hd) as [e ->]. eauto.
    + intros Hr. pose proof (norm_dim_spec dim (length s)) as H.
      destruct (norm_dim dim (length s)) as [d|]; [|done]. by destruct H.
  - intros [Hlow Hneg].
    pose proof (norm_dim_spec dim (length s)) as H1.
    pose proof (norm_dim_spec (dim + Z.of_nat (length s)) (length s)) as H2.
    destruct (norm_dim dim (length s)) as [d1|],
             (norm_dim (dim + Z.of_nat (length s)) (length s)) as [d2|]; try done.
    + destruct H1 as (_ & _ & H1), H2 as (_ & _ & H2).
      rewrite (proj2 (Z.ltb_lt _ _) Hneg) in H1.
      destruct (Z.ltb_spec (dim + Z.of_nat (length s)) 0); [lia|].
      by replace d2 with d1 by lia.
    + lia.
    + lia.
  - intros Hne Hfit. rewrite (fits_int64_product s Hne Hfit). split; [done|].
    transitivity (product s = 0).
    { split; [intros [= H]; lia | by intros ->]. }
    rewrite product_zero, list_elem_of_lookup. split.
    + intros [i Hi]. pose proof (lookup_lt_Some _ _ _ Hi).
      exists (Z.of_nat i). split; [lia|].
      pose proof (norm_dim_spec (Z.of_nat i) (length s)) as H1.
      destruct (norm_dim (Z.of_nat i) (length s)) as [d|]; [|lia].
      destruct H1 as (_ & _ & H1).
      destruct (Z.ltb_spec (Z.of_nat i) 0); [lia|].
      replace d with i by lia. by rewrite Hi.
    + intros (d & Hd & H). destruct (norm_dim d (length s)) as [i|]; [|done].
      exists i. destruct (s !! i) as [e|]; [|done]. by injection H as ->.
Qed.

(** ** What reading, deriving and intercepting leave alone *)

Lemma with_torch_tensor_same c : with_torch_tensor (_torch_tensor c) c = c.
Proof. by destruct c. Qed.

Lemma layout_kept_refl σ : layout_kept σ σ.
Proof. intros l c Hc. exists (_torch_tensor c). by rewrite with_torch_tensor_same. Qed.

Lemma layout_kept_trans σ1 σ2 σ3 :
  layout_kept σ1 σ2 → layout_kept σ2 σ3 → layout_kept σ1 σ3.
Proof.
  intros H1 H2 l c Hc. destruct (H1 l c Hc) as [x Hx].
  destruct (H2 l _ Hx) as [y Hy]. by exists y.
Qed.

Lemma layout_kept_app σ σ' new : objs σ' = objs σ ++ new → layout_kept σ σ'.
Proof.
  intros Hnew l c Hc. exists (_torch_tensor c).
  rewrite with_torch_tensor_same, Hnew. by apply lookup_app_l_Some.
Qed.

Lemma layout_kept_length σ σ' : layout_kept σ σ' → length (objs σ) ≤ length (objs σ').
Proof.
  intros H. destruct (decide (length (objs σ) ≤ length (objs σ'))) as [|Hgt]; [done|].
  destruct (lookup_lt_is_Some_2 (objs σ) (length (objs σ'))) as [c Hc]; [lia|].
  destruct (H _ _ Hc) as [x Hx%lookup_lt_Some]. lia.
Qed.

Lemma for_each_preserves {St A B} (R : St → St → Prop) (f : A → Run St B) (l : list A) :
  (∀ s, R s s) →
  (∀ s1 s2 s3, R s1 s2 → R s2 s3 → R s1 s3) →
  (∀ a s r s', f a s = (r, s') → R s s') →
  ∀ s r s', for_each f l s = (r, s') → R s s'.
Proof.
  intros Hrefl Htrans Hf. induction l as [|a l IH]; intros s r s'; simpl.
  - intros [= <- <-]. apply Hrefl.
  - unfold bind at 1. destruct (f a s) as [[b|e] s1] eqn:Ha.
    + unfold bind at 1. destruct (for_each f l s1) as [[bs|e] s2] eqn:Hl;
        intros [= <- <-]; (eapply Htrans; [by eapply Hf|by eapply IH]).
    + intros [= <- <-]. by eapply Hf.
Qed.

Lemma alter_last {A} (f : A → A) (l : list A) (c : A) :
  alter f (length l) (l ++ [c]) = l ++ [f c].
Proof.
  pose proof (alter_app_r f l [c] 0) as H. by rewrite Nat.add_0_r in H.
Qed.

Lemma alter_storage_twice (x y : Tensor) l (cs : list ColoTensor) :
  alter (with_torch_tensor y) l (alter (with_torch_tensor x) l cs)
    = alter (with_torch_tensor y) l cs.
Proof.
  apply list_eq. intros i. destruct (decide (i = l)) as [->|Hne].
  - rewrite !list_lookup_alter_eq. by destruct (cs !! l).
  - by rewrite !list_lookup_alter_ne.
Qed.

Lemma existsb_Exists {A} (f : A → bool) (l : list A) :
  existsb f l = true ↔ Exists (λ a, f a = true) l.
Proof.
  induction l as [|a l IH]; simpl.
  - split; [done|]. by intros ?%Exists_nil.
  - rewrite Exists_cons, orb_true_iff, IH. done.
Qed.

Lemma existsb_Forall {A} (f : A → bool) (l : list A) :
  existsb f l = false ↔ Forall (λ a, f a = false) l.
Proof.
  induction l as [|a l IH]; simpl.
  - split; [constructor|done].
  - rewrite Forall_cons, orb_false_iff, IH. done.
Qed.

Section Frames.

Context (T : Torch).

Lemma torch_tensor_layout σ l r σ' :
  torch_tensor T l σ = (r, σ') → layout_kept σ σ'.
Proof.
  unfold torch_tensor. prog_unfold.
  destruct (objs σ !! l) as [c|] eqn:Hl; [|intros [= <- <-]; apply layout_kept_refl].
  destruct (Nat.eqb_spec (numel (_torch_tensor c)) 0) as [Hn|Hn].
  - destruct (empty T _ _ _ _ _ _) as [x|e]; simpl;
      [|intros [= <- <-]; apply layout_kept_refl].
    rewrite list_lookup_alter_eq, Hl. simpl. intros [= <- <-].
    intros l' c' Hl'. simpl. destruct (decide (l = l')) as [->|Hne].
    + exists x. rewrite list_lookup_alter_eq, Hl'. simpl. congruence.
    + exists (_torch_tensor c'). by rewrite list_lookup_alter_ne, with_torch_tensor_same.
  - rewrite Hl. intros [= <- <-]. apply layout_kept_refl.
Qed.

Lemma torch_tensor_length σ l r σ' :
  torch_tensor T l σ = (r, σ') → length (objs σ') = length (objs σ).
Proof. intros H. by destruct (torch_tensor_inv T _ _ _ _ H) as [? _]. Qed.

(** X10.  Reading the storage writes the storage attribute of that one
    object and nothing else: every object keeps its logical size, spec,
    pattern and category, the other objects are untouched, no object is
    made, at most one buffer is allocated, and a read that raises leaves
    the store as it was. *)
Theorem torch_tensor_only_fills_storage σ l r σ' :
  torch_tensor T l σ = (r, σ') →
  layout_kept σ σ'
  ∧ length (objs σ') = length (objs σ)
  ∧ (∀ l', l' ≠ l → objs σ' !! l' = objs σ !! l')
  ∧ allocs σ ≤ allocs σ' ≤ S (allocs σ)
  ∧ (∀ e, r = Raise e → σ' = σ).
Proof.
  intros H. split; [by eapply torch_tensor_layout|].
  split; [by eapply torch_tensor_length|].
  revert H. unfold torch_tensor. prog_unfold.
  destruct (objs σ !! l) as [c|] eqn:Hl; [|intros [= <- <-]; repeat split; lia].
  destruct (Nat.eqb_spec (numel (_torch_tensor c)) 0) as [Hn|Hn].
  - destruct (empty T _ _ _ _ _ _) as [x|e]; simpl;
      [|intros [= <- <-]; repeat split; lia].
    rewrite list_lookup_alter_eq, Hl. simpl. intros [= <- <-]. simpl.
    split; [|split; [lia|done]].
    intros l' Hne. by rewrite list_lookup_alter_ne.
  - rewrite Hl. intros [= <- <-]. repeat split; lia.
Qed.

Lemma unwrap_if_colo_layout v σ r σ' :
  unwrap_if_colo T v σ = (r, σ') → layout_kept σ σ'.
Proof.
  destruct v; simpl; try (intros [= <- <-]; apply layout_kept_refl).
  unfold bind, ret. destruct (torch_tensor T loc σ) as [[x|e] σ1] eqn:Ht;
    intros [= <- <-]; by eapply torch_tensor_layout.
Qed.

Lemma unwrap_kw_layout kv σ r σ' :
  unwrap_kw T kv σ = (r, σ') → layout_kept σ σ'.
Proof.
  unfold unwrap_kw, bind, ret.
  destruct (unwrap_if_colo T kv.2 σ) as [[x|e] σ1] eqn:Ht;
    intros [= <- <-]; by eapply unwrap_if_colo_layout.
Qed.

Lemma for_each_unwrap_layout args σ r σ' :
  for_each (unwrap_if_colo T) args σ = (r, σ') → layout_kept σ σ'.
Proof.
  apply (for_each_preserves layout_kept);
    [apply layout_kept_refl | apply layout_kept_trans | apply unwrap_if_colo_layout].
Qed.

Lemma for_each_unwrap_kw_layout (kw : Kwargs) σ r σ' :
  for_each (unwrap_kw T) kw σ = (r, σ') → layout_kept σ σ'.
Proof.
  apply (for_each_preserves layout_kept);
    [apply layout_kept_refl | apply layout_kept_trans | apply unwrap_kw_layout].
Qed.

Lemma filter_outputs_layout outputs σ r σ' :
  _filter_outputs_with_colo T outputs σ = (r, σ') → layout_kept σ σ'.
Proof.
  destruct (filter_outputs_spec T outputs σ) as (v & σ2 & Hv & _ & (new & Hnew & _) & _).
  rewrite Hv. intros [= <- <-]. by eapply layout_kept_app.
Qed.

Lemma execute_func_layout func args kwargs σ r σ' :
  execute_func T func args kwargs σ = (r, σ') → layout_kept σ σ'.
Proof.
  unfold execute_func. unfold bind at 1.
  destruct (for_each (unwrap_if_colo T) args σ) as [[args'|e] σa] eqn:Ha;
    pose proof (for_each_unwrap_layout _ _ _ _ Ha) as H1; [|by intros [= <- <-]].
  unfold bind at 1.
  destruct (for_each (unwrap_kw T) kwargs σa) as [[kw'|e] σ1] eqn:Hk;
    pose proof (for_each_unwrap_kw_layout _ _ _ _ Hk) as H2;
    [|intros [= <- <-]; by eapply layout_kept_trans].
  unfold bind at 1. unfold lift_res.
  destruct (func args' kw') as [outputs|e];
    [|intros [= <- <-]; by eapply layout_kept_trans].
  intros H3%filter_outputs_layout.
  eapply layout_kept_trans; [exact H1|]. by eapply layout_kept_trans.
Qed.

(** X11.  Intercepting an operation that has no handler never changes the
    logical size, the layout spec, the shard pattern or the category of
    a wrapped tensor that exists, whether the call returns or raises: it
    fills in storages and makes new objects, and drops none. *)
Theorem torch_function_keeps_layouts
    (ops : gmap nat Handler) (func : Func) types args kwargs σ r σ' :
  ops !! (func : nat) = None →
  __torch_function__ T ops func types args kwargs σ = (r, σ') →
  layout_kept σ σ' ∧ length (objs σ) ≤ length (objs σ').
Proof.
  intros Hops H.
  assert (Hk : layout_kept σ σ').
  { apply (execute_func_layout (call T func) args (default [] kwargs) σ r σ').
    rewrite <- H. unfold __torch_function__, execute_func. by rewrite Hops. }
  split; [done|]. by apply layout_kept_length.
Qed.

Lemma wrap_derives z σ σ1 :
  layout_kept σ σ1 → length (objs σ1) = length (objs σ) →
  ∀ r σ', init_from_torch_tensor T z true false σ1 = (r, σ') →
  match r with
  | Ok loc => derives_one σ (Ok loc) σ'
  | Raise _ => False
  end.
Proof.
  intros Hk Hlen r σ'. rewrite wrap_result. intros [= <- <-]. split.
  - eapply layout_kept_trans; [exact Hk|]. by eapply layout_kept_app.
  - simpl. rewrite length_app. simpl. lia.
Qed.

Lemma getitem_derives self key σ r σ' :
  __getitem__ T self key σ = (r, σ') → derives_one σ r σ'.
Proof.
  unfold __getitem__. unfold bind at 1.
  destruct (torch_tensor T self σ) as [[x|e] σ1] eqn:Ht;
    pose proof (torch_tensor_layout _ _ _ _ Ht) as Hk;
    pose proof (torch_tensor_length _ _ _ _ Ht) as Hlen;
    [|by intros [= <- <-]].
  unfold bind at 1. unfold lift_res.
  destruct (getitem T x key) as [y|e]; [|by intros [= <- <-]].
  intros H. pose proof (wrap_derives y σ σ1 Hk Hlen _ _ H). by destruct r.
Qed.

Lemma truediv_native_derives self o σ r σ' :
  (∀ l, o ≠ VColo l) →
  __truediv__ T self o σ = (r, σ') → derives_one σ r σ'.
Proof.
  intros Hnc. rewrite truediv_unfold.
  destruct (torch_tensor T self σ) as [[x|e] σ1] eqn:Ht;
    pose proof (torch_tensor_layout _ _ _ _ Ht) as Hk;
    pose proof (torch_tensor_length _ _ _ _ Ht) as Hlen;
    [|by intros [= <- <-]].
  assert (Hgoal :
    match truediv T x o with
    | Ok z => (Ok (length (objs σ1)), mkStore (objs σ1 ++ [colo_of z]) (allocs σ1))
    | Raise e => (Raise e, σ1)
    end = (r, σ') → derives_one σ r σ').
  { destruct (truediv T x o) as [z|e]; intros [= <- <-]; [|done]. split.
    - eapply layout_kept_trans; [exact Hk|]. by eapply layout_kept_app.
    - simpl. rewrite length_app. simpl. lia. }
  destruct o as [| y | y | o' | vs | cls tag]; try exact Hgoal.
  by destruct (Hnc o').
Qed.

Lemma truediv_wrapped_derives self o' σ r σ' :
  __truediv__ T self (VColo o') σ = (r, σ') →
  layout_kept σ σ'
  ∧ match r with
    | Ok loc => loc = S (length (objs σ)) ∧ length (objs σ') = S (S (length (objs σ)))
    | Raise _ => length (objs σ') = length (objs σ)
    end.
Proof.
  rewrite truediv_unfold.
  destruct (torch_tensor T self σ) as [[x|e] σ1] eqn:Ht;
    pose proof (torch_tensor_layout _ _ _ _ Ht) as Hk;
    pose proof (torch_tensor_length _ _ _ _ Ht) as Hlen;
    [|by intros [= <- <-]].
  destruct (torch_tensor T o' σ1) as [[y|e] σ2] eqn:Ht2;
    pose proof (torch_tensor_layout _ _ _ _ Ht2) as Hk2;
    pose proof (torch_tensor_length _ _ _ _ Ht2) as Hlen2;
    [|intros [= <- <-]; split; [by eapply layout_kept_trans|simpl; congruence]].
  destruct (truediv T x (VTensor y)) as [z|e];
    [|intros [= <- <-]; split; [by eapply layout_kept_trans|simpl; congruence]].
  intros [= <- <-]. split.
  - eapply layout_kept_trans; [exact Hk|].
    eapply layout_kept_trans; [exact Hk2|]. by eapply layout_kept_app.
  - simpl. rewrite length_app. simpl. lia.
Qed.

Lemma add_native_derives self y σ r σ' :
  (let* x := torch_tensor T self in
   let* z := lift_res (add T x y) in
   init_from_torch_tensor T z true false) σ = (r, σ') →
  derives_one σ r σ'.
Proof.
  unfold bind at 1.
  destruct (torch_tensor T self σ) as [[x|e] σ1] eqn:Ht;
    pose proof (torch_tensor_layout _ _ _ _ Ht) as Hk;
    pose proof (torch_tensor_length _ _ _ _ Ht) as Hlen;
    [|by intros [= <- <-]].
  unfold bind at 1. unfold lift_res.
  destruct (add T x y) as [z|e]; [|by intros [= <- <-]].
  intros H. pose proof (wrap_derives z σ σ1 Hk Hlen _ _ H). by destruct r.
Qed.

Lemma add_derives self o σ r σ' :
  __add__ T self o σ = (r, σ') → derives_one σ r σ'.
Proof.
  destruct o as [| y | y | o' | vs | cls tag]; simpl;
    try (intros [= <- <-]; split; [apply layout_kept_refl|done]);
    try apply add_native_derives.
  unfold bind at 1.
  destruct (torch_tensor T self σ) as [[x|e] σ1] eqn:Ht;
    pose proof (torch_tensor_layout _ _ _ _ Ht) as Hk;
    pose proof (torch_tensor_length _ _ _ _ Ht) as Hlen;
    [|by intros [= <- <-]].
  unfold bind at 1.
  destruct (torch_tensor T o' σ1) as [[y|e] σ2] eqn:Ht2;
    pose proof (torch_tensor_layout _ _ _ _ Ht2) as Hk2;
    pose proof (torch_tensor_length _ _ _ _ Ht2) as Hlen2;
    [|intros [= <- <-]; split; [by eapply layout_kept_trans|simpl; congruence]].
  unfold bind at 1. unfold lift_res.
  destruct (add T x y) as [z|e];
    [|intros [= <- <-]; split; [by eapply layout_kept_trans|simpl; congruence]].
  intros H.
  assert (Hk' : layout_kept σ σ2) by by eapply layout_kept_trans.
  assert (Hlen' : length (objs σ2) = length (objs σ)) by congruence.
  pose proof (wrap_derives z σ σ2 Hk' Hlen' _ _ H). by destruct r.
Qed.

(** X12.  Indexing, [+] and [/] never change the layout of their
    operands or of any other object.  Indexing, [+], and [/] by an
    operand that is not a wrapped tensor make exactly one object when
    they return, at a location that no object had, so the result never
    aliases an operand; a call that raises has made none.  [/] by a
    wrapped tensor does not unwrap it: under a registry without a handler
    for division, the interceptor wraps the quotient and the operator
    wraps again, so that two objects are made and the result is the
    second.  An operand of [+] that is no tensor raises a TypeError that
    names the class of the operand, before the storage is read: the
    store is untouched. *)
Theorem operators_derive_objects σ :
  (∀ self key r σ', __getitem__ T self key σ = (r, σ') → derives_one σ r σ')
  ∧ (∀ self o r σ', __add__ T self o σ = (r, σ') → derives_one σ r σ')
  ∧ (∀ self o r σ', (∀ l, o ≠ VColo l) →
       __truediv__ T self o σ = (r, σ') → derives_one σ r σ')
  ∧ (∀ self o' r σ', __truediv__ T self (VColo o') σ = (r, σ') →
       layout_kept σ σ'
       ∧ match r with
         | Ok loc => loc = S (length (objs σ)) ∧ length (objs σ') = S (S (length (objs σ)))
         | Raise _ => length (objs σ') = length (objs σ)
         end)
  ∧ (∀ self,
       __add__ T self VNone σ
         = (Raise (TypeError "<class 'NoneType'> is not supported in ColoTensor __add__"), σ)
       ∧ (∀ vs, __add__ T self (VTuple vs) σ
            = (Raise (TypeError "<class 'tuple'> is not supported in ColoTensor __add__"), σ))
       ∧ (∀ cls tag, __add__ T self (VOther cls tag) σ
            = (Raise (TypeError ("<class '" +:+ cls
                                 +:+ "'> is not supported in ColoTensor __add__")), σ))).
Proof.
  split; [intros self key; apply getitem_derives|].
  split; [intros self o; apply add_derives|].
  split; [intros self o r σ' Hnc; by apply truediv_native_derives|].
  split; [intros self o'; apply truediv_wrapped_derives|].
  done.
Qed.

End Frames.

(** ** Dispatch, re-wrapping, release and the attribute fallback *)

Section Dispatch.

Context (T : Torch).

Lemma wrap_if_tensor_not_native v σ w σ' :
  wrap_if_tensor T v σ = (Ok w, σ') → is_native w = false.
Proof.
  destruct v; simpl; by intros [= <- <-].
Qed.

Lemma wrap_if_tensor_fixed w σ :
  is_native w = false → wrap_if_tensor T w σ = (Ok w, σ).
Proof. by destruct w. Qed.

Lemma for_each_wrap_not_native vs σ ws σ' :
  for_each (wrap_if_tensor T) vs σ = (Ok ws, σ') →
  forallb (λ w, negb (is_native w)) ws = true.
Proof.
  revert σ ws. induction vs as [|v vs IH]; intros σ ws; simpl.
  - by intros [= <- <-].
  - unfold bind at 1. destruct (wrap_if_tensor T v σ) as [[w|e] σ1] eqn:Hv; [|done].
    unfold bind at 1.
    destruct (for_each (wrap_if_tensor T) vs σ1) as [[ws'|e] σ2] eqn:Hvs; [|done].
    intros [= <- <-]. simpl.
    by rewrite (wrap_if_tensor_not_native _ _ _ _ Hv), (IH _ _ Hvs).
Qed.

Lemma for_each_wrap_fixed ws σ :
  forallb (λ w, negb (is_native w)) ws = true →
  for_each (wrap_if_tensor T) ws σ = (Ok ws, σ).
Proof.
  induction ws as [|w ws IH]; simpl; [done|].
  intros [Hw Hws]%andb_true_iff. apply negb_true_iff in Hw.
  unfold bind at 1. rewrite (wrap_if_tensor_fixed w σ Hw).
  unfold bind at 1. by rewrite (IH Hws).
Qed.

(** X13.  Re-wrapping always returns, and leaves no native tensor where
    it looks, neither as the result nor as an element of a result tuple;
    applied again to its own result it changes nothing and makes no
    object. *)
Theorem filter_outputs_idempotent outputs σ :
  ∃ v σ', _filter_outputs_with_colo T outputs σ = (Ok v, σ')
          ∧ no_bare_tensor v = true
          ∧ _filter_outputs_with_colo T v σ' = (Ok v, σ').
Proof.
  destruct (filter_outputs_spec T outputs σ) as (v & σ' & Hv & _).
  exists v, σ'. split; [done|]. revert Hv.
  destruct outputs as [| x | x | loc | vs | tag]; simpl;
    try (by intros [= <- <-]).
  - unfold bind at 1.
    destruct (for_each (wrap_if_tensor T) vs σ) as [[ws|e] σ1] eqn:Hvs; [|done].
    intros [= <- <-]. pose proof (for_each_wrap_not_native _ _ _ _ Hvs) as Hn.
    split; [done|]. simpl. unfold bind. by rewrite (for_each_wrap_fixed ws σ1 Hn).
Qed.

(** X14.  An operation that has a handler in the registry is never passed
    to torch.  If a positional argument or the value of a keyword
    argument is a wrapped tensor, the handler is called with the types,
    the arguments and the keyword arguments as they came, wrapped tensors
    still wrapped and no storage read, and what it returns is returned.
    If none is: with keyword arguments the interceptor returns None, and
    with [kwargs=None] it raises an attribute error; the store is
    untouched. *)
Theorem torch_function_registered_dispatch
    (ops : gmap nat Handler) (func : Func) (handler : Handler) types args kwargs σ :
  ops !! (func : nat) = Some handler →
  ((Exists (λ v, is_colo v = true) args
    ∨ Exists (λ v, is_colo v = true) (map snd (default [] kwargs))) →
   __torch_function__ T ops func types args kwargs σ = handler types args kwargs VNone σ)
  ∧ (Forall (λ v, is_colo v = false) args →
     (kwargs = None →
      __torch_function__ T ops func types args kwargs σ = (Raise AttributeError, σ))
     ∧ (∀ kw, kwargs = Some kw → Forall (λ v, is_colo v = false) (map snd kw) →
        __torch_function__ T ops func types args kwargs σ = (Ok VNone, σ))).
Proof.
  intros Hops. unfold __torch_function__. rewrite Hops. split.
  - intros [Ha|Hk].
    + by rewrite (proj2 (existsb_Exists _ _) Ha).
    + destruct (existsb is_colo args); [done|].
      destruct kwargs as [kw|]; simpl in Hk; [|by apply Exists_nil in Hk].
      by rewrite (proj2 (existsb_Exists _ _) Hk).
  - intros Ha. rewrite (proj2 (existsb_Forall _ _) Ha). split.
    + by intros ->.
    + intros kw -> Hk. by rewrite (proj2 (existsb_Forall _ _) Hk).
Qed.

(** X15.  Wrapping a native tensor that has an element and reading the
    storage of the new object gives back that tensor, and allocates
    nothing; the object declares the size, dtype, requires-grad flag,
    pinning and device of the tensor.  Wrapped with
    [save_payload=False], the object holds an empty placeholder, and
    the read allocates a buffer with what the tensor declared: the
    elements of the tensor are not kept. *)
Theorem wrap_then_read_returns_payload x is_model σ :
  numel x ≠ 0 →
  (let* l := init_from_torch_tensor T x true is_model in torch_tensor T l) σ
    = (Ok x,
       mkStore (objs σ ++ [__init__ (t_size x) (Some (t_dtype x)) (t_requires_grad x)
                             (t_pinned x) (Some (t_device x)) x (Some default_spec)
                             is_model])
               (allocs σ))
  ∧ (∀ p y,
       empty T [0] None false false None (allocs σ) = Ok p → numel p = 0 →
       empty T (t_size x) (Some (t_dtype x)) (t_pinned x) (t_requires_grad x)
         (Some (t_device x)) (S (allocs σ)) = Ok y →
       (let* l := init_from_torch_tensor T x false is_model in torch_tensor T l) σ
         = (Ok y,
            mkStore (objs σ ++ [__init__ (t_size x) (Some (t_dtype x)) (t_requires_grad x)
                                  (t_pinned x) (Some (t_device x)) y (Some default_spec)
                                  is_model])
                    (S (S (allocs σ))))).
Proof.
  intros Hx. split.
  - unfold bind. rewrite init_from_torch_tensor_payload.
    set (c := __init__ _ _ _ _ _ x _ _).
    by rewrite (torch_tensor_materialised T (mkStore (objs σ ++ [c]) (allocs σ))
                  (length (objs σ)) c (lookup_new _ _) Hx).
  - intros p y Hp Hp0 Hy.
    set (c := __init__ (t_size x) (Some (t_dtype x)) (t_requires_grad x) (t_pinned x)
                (Some (t_device x)) p (Some default_spec) is_model).
    assert (Hinit : init_from_torch_tensor T x false is_model σ
                    = (Ok (length (objs σ)), mkStore (objs σ ++ [c]) (S (allocs σ)))).
    { unfold init_from_torch_tensor. prog_unfold. by rewrite Hp. }
    unfold bind. rewrite Hinit.
    rewrite (torch_tensor_lazy T (mkStore (objs σ ++ [c]) (S (allocs σ)))
               (length (objs σ)) c y (lookup_new _ _) Hp0 Hy).
    simpl. by rewrite alter_last.
Qed.

(** X16.  Releasing the storage with [save_shape=True] and reading it
    again allocates anew: the read returns a buffer with the declared
    size, dtype, pinning, requires-grad flag and device, two buffers have
    been allocated, and the tensor differs from what it was by its
    storage only.  With [save_shape=False] the logical size becomes
    [(0,)], so that [numel()] is 0 and [dim()] is 1, whatever the tensor
    was; its spec and its shard pattern stay. *)
Theorem del_then_read_reallocates σ l c p :
  objs σ !! l = Some c →
  empty T [0] (_dtype c) false false (_device c) (allocs σ) = Ok p →
  numel p = 0 →
  (∀ y,
     empty T (_size c) (_dtype c) (_pin_memory c) (_requires_grad c) (_device c)
       (S (allocs σ)) = Ok y →
     (del_torch_tensor T l true ;; torch_tensor T l) σ
       = (Ok y, mkStore (alter (with_torch_tensor y) l (objs σ)) (S (S (allocs σ)))))
  ∧ ∃ σ1 c1,
      del_torch_tensor T l false σ = (Ok (), σ1)
      ∧ objs σ1 !! l = Some c1
      ∧ c1 = with_torch_tensor p (with_size [0] c)
      ∧ Colo.numel c1 = np_int64 0 ∧ Colo.dim c1 = 1
      ∧ _shard_spec c1 = _shard_spec c ∧ _shard_pattern c1 = _shard_pattern c.
Proof.
  intros Hl Hp Hp0. split.
  - intros y Hy. unfold bind at 1.
    assert (Hdel : del_torch_tensor T l true σ
                   = (Ok (), mkStore (alter (with_torch_tensor p) l (objs σ)) (S (allocs σ)))).
    { unfold del_torch_tensor. prog_unfold. simpl. by rewrite Hl, Hp. }
    rewrite Hdel.
    rewrite (torch_tensor_lazy T (mkStore _ _) l (with_torch_tensor p c) y);
      [simpl; by rewrite alter_storage_twice | simpl; by rewrite list_lookup_alter_eq, Hl
      | done | done].
  - eexists _, _. split; [|split; [|split; [reflexivity|done]]].
    + unfold del_torch_tensor. prog_unfold. simpl.
      rewrite list_lookup_alter_eq, Hl. simpl. rewrite Hp. done.
    + simpl. by rewrite !list_lookup_alter_eq, Hl.
Qed.

(** X17.  Adding a wrapped tensor to itself reads the same object twice.
    If it has no buffer yet, the first read allocates one with an
    element; the second read finds it, so that one buffer is allocated,
    torch adds that buffer to itself, and the sum is a new object behind
    the existing ones. *)
Theorem add_to_itself_allocates_once σ l c x z :
  objs σ !! l = Some c →
  numel (_torch_tensor c) = 0 →
  empty T (_size c) (_dtype c) (_pin_memory c) (_requires_grad c) (_device c) (allocs σ)
    = Ok x →
  numel x ≠ 0 →
  add T x x = Ok z →
  __add__ T l (VColo l) σ
    = (Ok (length (objs σ)),
       mkStore (alter (with_torch_tensor x) l (objs σ) ++ [colo_of z]) (S (allocs σ))).
Proof.
  intros Hl Hn He Hx Hz. unfold __add__. unfold bind at 1.
  rewrite (torch_tensor_lazy T σ l c x Hl Hn He). unfold bind at 1.
  rewrite (torch_tensor_materialised T (mkStore _ _) l (with_torch_tensor x c));
    [|simpl; by rewrite list_lookup_alter_eq, Hl|done].
  unfold bind at 1. unfold lift_res. simpl. rewrite Hz, wrap_result. simpl.
  by rewrite length_alter.
Qed.

(** X18.  The attribute fallback looks the name up on the storage as it
    is: the lookup reads no storage and changes nothing.  A name the
    native tensor does not have raises an assertion error; an attribute
    that is not callable is returned as it is, a native tensor included;
    a callable is returned inside a wrapper.  Whenever the wrapper
    returns, the callable found at lookup time was called on arguments
    and keyword arguments in which every wrapped tensor is replaced by
    its storage, its result was re-wrapped by the rule of the
    interceptor, and no existing object has changed its layout. *)
Theorem getattr_falls_back_to_storage
    (getattr : Tensor → string → option NativeAttr) self name c σ :
  objs σ !! self = Some c →
  (getattr (_torch_tensor c) name = None →
     ∃ msg, __getattr__ T getattr self name σ = (Raise (AssertionError msg), σ))
  ∧ (∀ v, getattr (_torch_tensor c) name = Some (Plain v) →
       __getattr__ T getattr self name σ = (Ok (inr v), σ))
  ∧ (∀ func, getattr (_torch_tensor c) name = Some (Callable func) →
       ∃ wrapper,
         __getattr__ T getattr self name σ = (Ok (inl wrapper), σ)
         ∧ ∀ args kwargs σ0 r σ', wrapper args kwargs σ0 = (Ok r, σ') →
             ∃ args' kw' outputs σ1,
               Forall2 (unwrapped σ1) args args'
               ∧ Forall2 (kw_unwrapped σ1) kwargs kw'
               ∧ func args' kw' = Ok outputs
               ∧ _filter_outputs_with_colo T outputs σ1 = (Ok r, σ')
               ∧ rewrap_rule σ' outputs r
               ∧ layout_kept σ0 σ').
Proof.
  intros Hl. unfold __getattr__. prog_unfold. rewrite Hl.
  split; [intros ->; eauto|]. split; [by intros v ->|].
  intros func ->. eexists. split; [done|].
  intros args kwargs σ0 r σ' H.
  pose proof (execute_func_layout T _ _ _ _ _ _ H) as Hkept.
  revert H. unfold replace_tensor_with_colo, execute_func. unfold bind at 1.
  destruct (for_each (unwrap_if_colo T) args σ0) as [[args'|e] σa] eqn:Ha; [|done].
  unfold bind at 1.
  destruct (for_each (unwrap_kw T) kwargs σa) as [[kw'|e] σ1] eqn:Hk; [|done].
  unfold bind at 1. unfold lift_res.
  destruct (func args' kw') as [outputs|e] eqn:Hc; [|done].
  intros Hf.
  destruct (for_each_unwrap_spec T _ _ _ _ Ha) as [Hua Hka].
  destruct (for_each_unwrap_kw_spec T _ _ _ _ Hk) as [Huk Hkk].
  exists args', kw', outputs, σ1. repeat split; try done.
  - eapply Forall2_impl; [exact Hua|]. intros v w Hu. by eapply unwrapped_later.
  - destruct (filter_outputs_spec T outputs σ1) as (v & σ2 & Hv & Hr & _).
    rewrite Hf in Hv. by simplify_eq.
Qed.

End Dispatch.

(** ** The further properties on the running examples *)

Lemma reshard_never_shards_witness :
  _shard_pattern (shard ex_env ex_sharded_two).2 = NA.
Proof.
  exact (reshard_never_shards ex_env ex_sharded_two (mkSpec ex_two_actions) _ _
           ltac:(vm_compute; discriminate) eq_refl eq_refl).
Defined.

Lemma reshard_single_action_fails_witness :
  ∃ e, shard ex_env (ex_rows NONMODEL) = (Raise e, ex_rows NONMODEL).
Proof.
  apply (reshard_single_action_fails ex_env (ex_rows NONMODEL) (mkAction TP1DCol_Linear 1));
    [vm_compute; discriminate | reflexivity | eexists; reflexivity].
Defined.

Lemma set_spec_installs_spec_witness :
  _shard_spec (set_spec ex_env (Some ex_row_linear) true (ex_rows NONMODEL)).2
    = Some ex_row_linear.
Proof.
  exact (proj1 (set_spec_installs_spec ex_env (Some ex_row_linear) true
                  (ex_rows NONMODEL) _ _ eq_refl)).
Defined.

Lemma reshard_dp_raises_after_gather_witness :
  ∃ t1, gather ex_env ex_sharded_dp = (Ok (), t1)
        ∧ shard ex_env ex_sharded_dp = (Raise NotImplementedError, t1)
        ∧ _shard_pattern t1 = NA
        ∧ _torch_tensor t1 =
            gather_forward_split_backward ex_env (_torch_tensor ex_sharded_dp) 1
              (gather_dim (_shard_pattern ex_sharded_dp)).
Proof.
  apply (reshard_dp_raises_after_gather ex_env ex_sharded_dp (mkAction DP 1));
    [reflexivity | vm_compute; discriminate | reflexivity | reflexivity].
Defined.

(** The failed re-shard has put the full matrix back. *)
Example reshard_dp_restores_matrix :
  (shard ex_env ex_sharded_dp).1 = Raise NotImplementedError
  ∧ t_data (_torch_tensor ex_sharded_dp) = [5; 6; 7; 8]%Z
  ∧ t_data (_torch_tensor (shard ex_env ex_sharded_dp).2) = [1; 2; 3; 4; 5; 6; 7; 8]%Z.
Proof. vm_compute. repeat split; done. Qed.

Lemma shard_1d_divides_numel_witness :
  product (_size (_shard_1d ex_env (mkAction TP1DRow_Linear 1) (-1)
                    (ex_colo [] NONMODEL)).2) * 2
    = 8
  ∧ Colo.dim (_shard_1d ex_env (mkAction TP1DRow_Linear 1) (-1) (ex_colo [] NONMODEL)).2 = 2.
Proof.
  pose proof (shard_1d_divides_numel ex_env (mkAction TP1DRow_Linear 1) (-1)
                (ex_colo [] NONMODEL) _ eq_refl eq_refl) as (H1 & H2 & _).
  split; [exact H1 | exact H2].
Defined.

(** [numel()] before and after on the running example, and numpy's
    product where it wraps around: two extents of 2^32 have the product
    2^64, which is 0 in an int64. *)
Example numel_examples :
  Colo.numel (ex_colo [] NONMODEL) = np_int64 8
  ∧ Colo.numel (_shard_1d ex_env (mkAction TP1DRow_Linear 1) (-1) (ex_colo [] NONMODEL)).2
    = np_int64 4
  ∧ Colo.numel (ex_lazy []) = np_float64 1
  ∧ ∀ c, _size c = [2 ^ 32; 2 ^ 32] → Colo.numel c = np_int64 0.
Proof.
  split; [reflexivity|]. split; [reflexivity|]. split; [reflexivity|].
  intros c Hc. unfold Colo.numel, numpy_product. rewrite Hc.
  assert (H32 : Z.of_nat (2 ^ 32) = (2 ^ 32)%Z) by (rewrite Nat2Z.inj_pow; reflexivity).
  cbn [forallb product foldr]. rewrite Nat.mul_1_r, Nat2Z.inj_mul, !H32. reflexivity.
Qed.

Lemma shard_needs_sized_storage_witness :
  shard ex_env ex_lazy_row_linear = (Raise IndexError, ex_lazy_row_linear).
Proof.
  apply (proj2 (shard_needs_sized_storage ex_env ex_lazy_row_linear
                  (mkAction TP1DRow_Linear 1) (-1) Col eq_refl eq_refl eq_refl) 4);
    first [reflexivity | simpl; lia].
Defined.

Lemma shards_of_all_ranks_concatenate_witness :
  (∀ r, r < 2 →
     (_shard_1d (ex_envs r) (mkAction TP1DRow_Linear 1) (-1) (ex_colo [] NONMODEL)).1 = Ok ())
  ∧ ∃ y, cat (map (λ r, _torch_tensor
                          (_shard_1d (ex_envs r) (mkAction TP1DRow_Linear 1) (-1)
                             (ex_colo [] NONMODEL)).2) (seq 0 2)) (-1) = Ok y
         ∧ t_size y = [2; 4]
         ∧ t_data y = [1; 2; 3; 4; 5; 6; 7; 8]%Z.
Proof.
  apply (shards_of_all_ranks_concatenate ex_envs (mkAction TP1DRow_Linear 1) (-1)
           (ex_colo [] NONMODEL) 4 2);
    first [reflexivity | lia | left; reflexivity | intros r _; split; reflexivity].
Defined.

Lemma torch_tensor_only_fills_storage_witness :
  layout_kept ex_lazy_store (torch_tensor ex_torch 0 ex_lazy_store).2
  ∧ length (objs (torch_tensor ex_torch 0 ex_lazy_store).2) = 1
  ∧ (∀ l', l' ≠ 0 → objs (torch_tensor ex_torch 0 ex_lazy_store).2 !! l'
                    = objs ex_lazy_store !! l')
  ∧ 0 ≤ allocs (torch_tensor ex_torch 0 ex_lazy_store).2 ≤ 1
  ∧ (∀ e, (torch_tensor ex_torch 0 ex_lazy_store).1 = Raise e →
          (torch_tensor ex_torch 0 ex_lazy_store).2 = ex_lazy_store).
Proof.
  exact (torch_tensor_only_fills_storage ex_torch ex_lazy_store 0 _ _ eq_refl).
Defined.

Lemma torch_function_keeps_layouts_witness :
  layout_kept ex_store
    (__torch_function__ ex_torch ex_ops ex_neg [] [VColo 0] None ex_store).2
  ∧ 1 ≤ length (objs (__torch_function__ ex_torch ex_ops ex_neg [] [VColo 0] None
                        ex_store).2).
Proof.
  assert (H : ex_ops !! 0 = None) by reflexivity.
  exact (torch_function_keeps_layouts ex_torch ex_ops ex_neg [] [VColo 0] None ex_store
           _ _ H eq_refl).
Defined.

Lemma torch_function_registered_dispatch_witness :
  __torch_function__ ex_torch ex_ops ex_custom [] [VColo 0] None ex_store
    = (Ok (VOther "int" 42), ex_store).
Proof.
  assert (H : ex_ops !! 1 = Some (λ _ _ _ _, ret (VOther "int" 42))) by reflexivity.
  apply (proj1 (torch_function_registered_dispatch ex_torch ex_ops ex_custom _ []
                  [VColo 0] None ex_store H)).
  left. constructor. reflexivity.
Defined.

(** With no wrapped tensor among the arguments, the registered operation
    is not run at all. *)
Example torch_function_registered_without_colo :
  __torch_function__ ex_torch ex_ops ex_custom [] [VTensor ex_vector] (Some []) ex_store
    = (Ok VNone, ex_store)
  ∧ __torch_function__ ex_torch ex_ops ex_custom [] [VTensor ex_vector] None ex_store
    = (Raise AttributeError, ex_store).
Proof. split; reflexivity. Qed.

Lemma wrap_then_read_returns_payload_witness :
  (let* l := init_from_torch_tensor ex_torch ex_vector true false in
   torch_tensor ex_torch l) ex_store
    = (Ok ex_vector, mkStore [colo_of ex_vector; colo_of ex_vector] 0).
Proof.
  apply (proj1 (wrap_then_read_returns_payload ex_torch ex_vector false ex_store
                  ltac:(vm_compute; lia))).
Defined.

Lemma del_then_read_reallocates_witness :
  (del_torch_tensor ex_torch 0 true ;; torch_tensor ex_torch 0) ex_store
    = (Ok (dense [2] [0; 0]%Z int64 0 false false),
       mkStore (alter (with_torch_tensor (dense [2] [0; 0]%Z int64 0 false false)) 0
                  (objs ex_store)) 2).
Proof.
  apply (proj1 (del_then_read_reallocates ex_torch ex_store 0 (colo_of ex_vector)
                  (dense [0] [] int64 0 false false) eq_refl eq_refl eq_refl)).
  reflexivity.
Defined.

Lemma add_to_itself_allocates_once_witness :
  __add__ ex_torch 0 (VColo 0) ex_lazy_store
    = (Ok 1,
       mkStore (alter (with_torch_tensor ex_zero_matrix) 0 (objs ex_lazy_store)
                  ++ [colo_of ex_zero_matrix]) 1).
Proof.
  apply (add_to_itself_allocates_once ex_torch ex_lazy_store 0 (ex_lazy [2; 2])
           ex_zero_matrix ex_zero_matrix);
    first [reflexivity | vm_compute; lia].
Defined.

Lemma getattr_falls_back_to_storage_witness :
  __getattr__ ex_torch ex_getattr 0 "ndim" ex_store = (Ok (inr (VOther "int" 1)), ex_store).
Proof.
  apply (proj1 (proj2 (getattr_falls_back_to_storage ex_torch ex_getattr 0 "ndim"
                         (colo_of ex_vector) ex_store eq_refl))).
  reflexivity.
Defined.

(** The method [neg] reached through the fallback, and a name that the
    native tensor does not have. *)
Example getattr_method_and_missing :
  (∃ wrapper,
     __getattr__ ex_torch ex_getattr 0 "neg" ex_store = (Ok (inl wrapper), ex_store)
     ∧ wrapper [] [] ex_store
       = (Ok (VColo 1), mkStore [colo_of ex_vector; colo_of ex_negated] 0))
  ∧ (__getattr__ ex_torch ex_getattr 0 "foo" ex_store).1
    = Raise (AssertionError "torch.Tensor has not attribute named as foo. So is ColoTensor").
Proof. split; [eexists; split; reflexivity | reflexivity]. Qed.

(** [is_gathered] before and after [shard], and after [gather]. *)
Example is_gathered_follows_calls :
  is_gathered (ex_matrix ex_row_linear NONMODEL) = true
  ∧ is_gathered (shard ex_env (ex_matrix ex_row_linear NONMODEL)).2 = false
  ∧ is_gathered ex_sharded_dp = false
  ∧ is_gathered (gather ex_env ex_sharded_dp).2 = true.
Proof. vm_compute. repeat split; done. Qed.

(** Re-wrapping looks at the elements of a tuple and no deeper: the
    tensor inside the inner tuple stays native. *)
Example filter_outputs_nested_tuple :
  _filter_outputs_with_colo ex_torch
    (VTuple [VTensor ex_negated; VOther "int" 3; VTuple [VTensor ex_negated]]) ex_store
    = (Ok (VTuple [VColo 1; VOther "int" 3; VTuple [VTensor ex_negated]]),
       mkStore [colo_of ex_vector; colo_of ex_negated] 0).
Proof. reflexivity. Qed.

(** Indexing a tensor that awaits its buffer allocates it and leaves the
    declared size of the operand alone. *)
Example getitem_lazy_operand :
  (__getitem__ ex_torch 0 (VOther "int" 0) ex_lazy_store).1 = Ok 1
  ∧ (_size <$> objs (__getitem__ ex_torch 0 (VOther "int" 0) ex_lazy_store).2 !! 0) = Some [2; 2]
  ∧ allocs (__getitem__ ex_torch 0 (VOther "int" 0) ex_lazy_store).2 = 1.
Proof. vm_compute. repeat split; done. Qed.
